(* ===== verification/_CoqProject ===== *)
-Q . S2P
Prelude.v
PyBytes.v
Compact.v
Pulse.v
Payload.v
World.v
Fetcher.v
Beacon.v
Submit.v
Responsive.v
Scenario.v
Relational.v
