(* ===== verification/Prelude.v ===== *)
(** * Verification of the drand pulse conduit (src/ocw.py)

    ** The program

    src/ocw.py is an off-chain worker.  On every new block of a Substrate
    chain it reads two storage items of the pallet Drand (NextUnsignedAt,
    LastStoredRound), asks the drand beacon for its latest pulse, decides
    which rounds the chain is missing, fetches them one by one over HTTP with
    failover across five endpoints, validates each response, encodes the
    batch in the byte layout the chain expects, signs the bytes and submits
    them in one unsigned call write_pulse.  Its parts, in the order of the
    file:

    - the configuration constants (lines 6-16);
    - the fetcher: fetch_drand_by_round, fetch_drand_latest,
      fetch_from_any_endpoint (lines 18-38);
    - the validator: try_into_pulse (lines 40-51);
    - the encoders: encode_compact_u32, encode_pulse, encode_pulses_payload
      (lines 53-90);
    - the cycle: submit_new_pulses (lines 95-173), which holds the gate
      (lines 96-120) and the submitter (lines 121-173);
    - the driver: block_subscription_handler and the subscription to block
      headers (lines 175-179).

    ** The model

    The development is a shallow embedding: every function of the source is
    a Rocq function of the same name that computes, so every example is
    checked by evaluation.

    - Pure functions that may raise return a value of the error monad [res]
      (this file): [Ok a] or [Raise e], with [e] one of the Python exception
      classes the program can meet ([exn]).
    - Integers are [Z].  Python integers are unbounded, so no wrap-around
      happens in the program itself; the widths appear where the code puts
      them, in [to_bytes n] (OverflowError outside [0, 256^n)) and in the
      mask and shifts of [encode_compact_u32], written with [Z.land],
      [Z.lor] and [Z.shiftl].
    - Bytes are lists of [Byte.byte]; text is [string].
    - A beacon response is a value of [Pulse.json], the values json.loads
      builds without the numbers that have a fraction or an exponent.  The
      round of a pulse stays a [json] value, because the code never checks
      it; arithmetic on it follows Python ([Submit.py_int]: an int or a bool
      is a number, anything else a TypeError).
    - Effects are explicit.  A computation of [World.M] maps the history, the
      list of [World.event]s so far, to a result of [res] and the extended
      history; an exception keeps the events that happened before it.  The
      answers of the clock, the beacon, the node and the key pair come from
      the oracles of [World.Env], which see the whole history, so every
      deterministic behaviour of the collaborators is an instance, the
      adversarial ones included.  Time is an integer number of milliseconds.

    ** The files

    - [Prelude] (this file): [exn], [res] with its instances of the stdpp
      monad classes, the notations of scope [py_scope], the tactics
      [res_simpl], [case_res], [zbool], [case_zbool], the hint databases
      [ocw], and the lemmas on [res], shifts and powers of 256 that the
      components share.
    - [PyBytes]: the Python primitives on bytes the source calls:
      [to_bytes] (int.to_bytes little-endian), [bytes_hex], [unhexlify],
      with their laws (round trips, lengths, injectivity, failures).
    - [Compact]: [encode_compact_u32] as written, and the decoder of the
      chain's compact format as reference.  Theorems: widths and tags of the
      four tiers, round trip below 2^30, prefix-freeness, the exact domain,
      and the two places where the code leaves the format (negative input,
      values from 2^30 on).
    - [Pulse]: [json], the record [Pulse], [try_into_pulse].  Theorems:
      success characterised exactly, the 32-byte invariant, every failing
      branch with its exception and the order in which they are met.
    - [Payload]: [encode_pulse], [encode_pulses_payload] with the loop the
      source writes inline, and a decoder of the layout as specification.
      Theorems: the layout, equality of the inline loop with [encode_pulse],
      round trip and injectivity on well-formed payloads, length, failures.
    - [World]: the constants, the messages exchanged with the collaborators,
      [event], [Env], the monad [M], the primitive operations (one per
      library call of the source) and the observations on histories
      ([requested], [submitted], [signatures], [printed], [quiet]).
    - [Fetcher]: [fetch_from_any_endpoint] with its loop [fetch_loop].  The
      specification is the inductive relation [fetch_run], the runs of the
      failover state machine.  Theorems: the function refines the machine;
      requests go to an initial segment of the endpoints in order, one each;
      the first success wins; a clock reading past the deadline is the last
      event.
    - [Beacon]: scripted beacons and chains, instances of [Env] for the
      examples.
    - [Submit]: [submit_new_pulses], split at line 121 into the gate and
      [submit_pulses]; [block_subscription_handler]; [main], the
      subscription over a finite list of headers.  The specification is the
      pure decision [gate] and the inductive relations [pulses_run],
      [submit_run], [cycle_run] and [driver_run].  Theorems: each function
      refines its relation; the cycle does what [gate] decides; at most one
      call per cycle, of 1 to 50 pulses, signed over the encoding of exactly
      the pulses it carries, and read back by the node as the payload that
      was signed; all or nothing; the order of the requests; the
      unreachable branch; the abort of a batch at the first round that
      fails; the driver runs one cycle per header and ends with the first
      exception of a cycle.
    - [Responsive]: what the cycle does when the collaborators answer: the
      first endpoint serves the latest pulse and the rounds asked for, the
      chain answers the queries, the node returns a receipt.  Theorem: the
      cycle then submits exactly the pulses returned for the rounds the
      gate decided on, whatever round each of them carries.
    - [Scenario]: examples, closed runs of [main] against [Beacon] checked
      by evaluation: the test vectors of section 8 of the specification.
    - [Relational]: the logical relation [related] between executions in two
      environments whose oracles answer alike, the clock of the second
      being [δ] ahead; the operations of the monad are proper for it and
      every function of the program respects it.  Theorems: the program is
      determined by the answers it gets (it keeps no state between cycles),
      and it uses the clock only relatively (a run shifted in time performs
      the same events, shifted).

    ** Bounds and assumptions

    - No fuel is used: the loop over the endpoints is structural recursion
      over the list, the loop over the rounds is structural over
      [seqZ first count], the subscription is structural over the list of
      headers delivered.  An infinite stream of headers is not modelled;
      every finite prefix of it is.
    - requests.exceptions.JSONDecodeError is a RequestException (requests
      2.27 and later), so a 200 response without a JSON body is a failed
      endpoint.  With an older requests the exception would leave
      fetch_from_any_endpoint.
    - The block number of a header is an integer, as the node delivers it.
    - compose_call, create_unsigned_extrinsic and submit_extrinsic are one
      exchange with the node: a receipt or an exception.  An exception of
      compose_call is therefore recorded as the answer to a call handed to
      the node; keypair.sign is total.
    - An exception of the handler leaves subscribe_block_headers: this is
      how the library behaves, neither the source nor the specification
      says it.
    - Floating point is left out: time is in integer milliseconds and JSON
      numbers are integers.

    ** Not modelled

    - The construction of the client and of the key pair (lines 92-93), the
      websocket transport, the type registry and the sr25519 signature: they
      are library code, present as oracles.
    - The chain's runtime: its decoders are written from the specification
      ([Compact.scale_decode_compact_u32], [Payload.decode_pulses_payload])
      and used as reference; verification of the signature on chain is not
      part of this program.
    - Wall-clock duration of requests and concurrency: the program is
      single-threaded and every call blocks.

    ** This file

    Prelude: the exception type, the error monad [res] on stdpp's monad
    classes, the development's notations (scope [py_scope]), tactics and
    hint databases, and the arithmetic lemmas the components share. *)

From Stdlib Require Export ZArith Lia.
From stdpp Require Export base tactics option list strings numbers.

#[global] Open Scope Z_scope.

(** ** Python exceptions

    One constructor per exception class the program can raise or let
    propagate.  [PyException msg] is [raise Exception(msg)]. *)
Inductive exn : Type :=
| KeyError (key : string)
| TypeError
| AttributeError
| OverflowError
| ValueError
| BinasciiError
| RequestException
| SubstrateRequestException
| PyException (msg : string).

#[export] Instance exn_eq_dec : EqDecision exn.
Proof. solve_decision. Defined.

(** ** The error monad: a value or a raised exception *)
Inductive res (A : Type) : Type :=
| Ok (a : A)
| Raise (e : exn).
Arguments Ok {A} a.
Arguments Raise {A} e.

#[export] Instance res_eq_dec `{EqDecision A} : EqDecision (res A).
Proof. solve_decision. Defined.

#[export] Instance res_ret : MRet res := @Ok.
#[export] Instance res_bind : MBind res := λ A B f m,
  match m with Ok a => f a | Raise e => Raise e end.
#[export] Instance res_fmap : FMap res := λ A B f m,
  match m with Ok a => Ok (f a) | Raise e => Raise e end.

Definition is_Ok {A} (m : res A) : Prop := ∃ a, m = Ok a.
Definition is_Raise {A} (m : res A) : Prop := ∃ e, m = Raise e.

(** [res_foldl f a l] is the loop [for x in l: a = f(a, x)] in which an
    iteration may raise. *)
Fixpoint res_foldl {A B} (f : A → B → res A) (a : A) (l : list B) : res A :=
  match l with
  | [] => Ok a
  | x :: l => a' ← f a x; res_foldl f a' l
  end.

(** ** Notations *)
Declare Scope py_scope.
Delimit Scope py_scope with py.
Notation "'raise' e" := (Raise e) (at level 10, e at level 9) : py_scope.
Notation "x 'or_else' d" := (default d x) (at level 40, left associativity) : py_scope.
Notation "2^ n" := (Z.pow 2 n) (at level 1, format "2^ n") : py_scope.
#[global] Open Scope py_scope.

(** ** Tactics *)

(** Reduce binds of the error monad on constructors. *)
Ltac res_simpl :=
  repeat (progress cbn [mbind mret fmap res_bind res_ret res_fmap] in * ||
          match goal with
          | H : Ok ?a = Ok ?b |- _ =>
              let H' := fresh "E" in
              assert (a = b) as H' by congruence; clear H; try subst
          | H : Raise ?a = Raise ?b |- _ =>
              let H' := fresh "E" in
              assert (a = b) as H' by congruence; clear H; try subst
          | H : Ok _ = Raise _ |- _ => discriminate H
          | H : Raise _ = Ok _ |- _ => discriminate H
          end).

(** Case on the first [res]-valued scrutinee of a bind in the goal. *)
Ltac case_res :=
  match goal with
  | |- context [mbind _ ?m] =>
      let E := fresh "E" in destruct m eqn:E; res_simpl
  end.

(** Turn the boolean comparisons of Z into propositions. *)
Ltac zbool :=
  repeat match goal with
  | H : (_ <? _) = true |- _ => apply Z.ltb_lt in H
  | H : (_ <? _) = false |- _ => apply Z.ltb_ge in H
  | H : (_ <=? _) = true |- _ => apply Z.leb_le in H
  | H : (_ <=? _) = false |- _ => apply Z.leb_gt in H
  | H : (_ =? _) = true |- _ => apply Z.eqb_eq in H
  | H : (_ =? _) = false |- _ => apply Z.eqb_neq in H
  end.

(** Case on every boolean test on Z that occurs in the goal. *)
Ltac case_zbool :=
  repeat match goal with
  | |- context [?a <? ?b] => destruct (Z.ltb_spec a b)
  | |- context [?a <=? ?b] => destruct (Z.leb_spec a b)
  | |- context [?a =? ?b] => destruct (Z.eqb_spec a b)
  end.

Create HintDb ocw discriminated.
Create Rewrite HintDb ocw.
#[export] Hint Constructors res : ocw.

(** ** Lemmas on the error monad *)
Section res_lemmas.
Context {A B : Type}.
Implicit Types (m : res A) (f : A → res B).

Lemma res_bind_Ok m f b :
  m ≫= f = Ok b ↔ ∃ a, m = Ok a ∧ f a = Ok b.
Proof.
  destruct m as [a|e]; res_simpl.
  - split; [eauto|]. by intros (? & [= <-] & ?).
  - split; [done|]. by intros (? & [=] & ?).
Qed.

Lemma res_bind_Raise m f e :
  m ≫= f = Raise e ↔ m = Raise e ∨ ∃ a, m = Ok a ∧ f a = Raise e.
Proof.
  destruct m as [a|e']; res_simpl.
  - split; [eauto|]. by intros [[=]|(? & [= <-] & ?)].
  - split; [intros [= ->]; by left|]. by intros [[= ->]|(? & [=] & ?)].
Qed.

Lemma res_fmap_Ok (g : A → B) m b :
  g <$> m = Ok b ↔ ∃ a, m = Ok a ∧ b = g a.
Proof.
  destruct m as [a|e]; res_simpl.
  - split; [intros [= <-]; eauto|]. by intros (? & [= <-] & ->).
  - split; [done|]. by intros (? & [=] & ?).
Qed.

Lemma is_Ok_or_Raise m : is_Ok m ∨ is_Raise m.
Proof. destruct m; [left|right]; eexists; done. Qed.

Lemma is_Ok_not_Raise m : is_Ok m → ¬ is_Raise m.
Proof. intros [a ->] [e ?]; done. Qed.
End res_lemmas.

Lemma res_foldl_app {A B} (f : A → B → res A) a l1 l2 :
  res_foldl f a (l1 ++ l2) = a' ← res_foldl f a l1; res_foldl f a' l2.
Proof.
  revert a; induction l1 as [|x l1 IH]; intros a; [done|].
  cbn [app res_foldl]. destruct (f a x); res_simpl; auto.
Qed.

(** A loop that appends one chunk per element is the concatenation of the
    chunks, provided every chunk is produced. *)
Lemma res_foldl_append {E B} (g : B → res (list E)) acc l :
  res_foldl (λ a x, c ← g x; Ok (a ++ c)) acc l
  = cs ← mapM g l; Ok (acc ++ concat cs).
Proof.
  revert acc; induction l as [|x l IH]; intros acc; cbn [res_foldl mapM].
  - res_simpl. by rewrite app_nil_r.
  - destruct (g x) as [c|e]; res_simpl; [|done].
    rewrite IH. destruct (mapM g l); res_simpl; [|done].
    by rewrite <-app_assoc.
Qed.

Lemma res_mapM_Ok_length {A B} (g : A → res B) l bs :
  mapM g l = Ok bs → length bs = length l.
Proof.
  revert bs; induction l as [|x l IH]; intros bs; cbn [mapM]; res_simpl.
  - by intros [= <-].
  - destruct (g x); res_simpl; [|done].
    destruct (mapM g l); res_simpl; [|done].
    intros [= <-]. cbn. f_equal. auto.
Qed.

Lemma res_mapM_Ok_Forall2 {A B} (g : A → res B) l bs :
  mapM g l = Ok bs ↔ Forall2 (λ x b, g x = Ok b) l bs.
Proof.
  revert bs; induction l as [|x l IH]; intros bs; cbn [mapM]; res_simpl.
  - split; [intros [= <-]; constructor | by inversion 1].
  - split.
    + destruct (g x) eqn:Ex; res_simpl; [|done].
      destruct (mapM g l) eqn:El; res_simpl; [|done].
      intros [= <-]. constructor; [done|]. by apply IH.
    + inversion 1 as [|? b ? bs' Hx Hl]; subst. rewrite Hx. res_simpl.
      apply IH in Hl. rewrite Hl. by res_simpl.
Qed.

Lemma res_mapM_Raise {A B} (g : A → res B) l e :
  mapM g l = Raise e → ∃ x, x ∈ l ∧ g x = Raise e.
Proof.
  induction l as [|x l IH]; cbn [mapM]; res_simpl; [done|].
  destruct (g x) eqn:Ex; res_simpl.
  - destruct (mapM g l); res_simpl; [done|]. intros [= <-].
    destruct IH as (y & ? & ?); [done|]. exists y. split; [by right|done].
  - intros [= <-]. exists x. split; [by left|done].
Qed.

(** ** Arithmetic shared by the encoders *)

Lemma Z_shiftl_2 v : Z.shiftl v 2 = 4 * v.
Proof. rewrite Z.shiftl_mul_pow2 by lia. lia. Qed.

Lemma Z_land_255 v : Z.land v 255 = v mod 256.
Proof. change 255 with (Z.ones 8). by rewrite Z.land_ones by lia. Qed.

(** OR-ing a two-bit tag into a value shifted left by two is an addition. *)
Lemma Z_lor_shiftl_2 v t : 0 ≤ t < 4 → Z.lor (Z.shiftl v 2) t = 4 * v + t.
Proof.
  intros Ht. rewrite <-Z.add_nocarry_lor; [by rewrite Z_shiftl_2|].
  apply Z.bits_inj'; intros n Hn. rewrite Z.land_spec, Z.bits_0.
  destruct (decide (n < 2)).
  - rewrite Z.shiftl_spec_low by lia. done.
  - replace (Z.testbit t n) with false; [apply andb_false_r|].
    symmetry. apply Z.bits_above_log2; [lia|].
    assert (Z.log2 t < 2); [|lia].
    destruct (decide (t = 0)) as [->|]; [done|].
    apply Z.log2_lt_pow2; lia.
Qed.

Lemma Z_pow_256 (n : nat) : 256 ^ Z.of_nat n = 2 ^ (8 * Z.of_nat n).
Proof. change 256 with (2 ^ 8). rewrite <-Z.pow_mul_r by lia. done. Qed.

Lemma Z_pow_256_pos (n : nat) : 0 < 256 ^ Z.of_nat n.
Proof. apply Z.pow_pos_nonneg; lia. Qed.

Lemma Z_pow_256_S (n : nat) : 256 ^ Z.of_nat (S n) = 256 * 256 ^ Z.of_nat n.
Proof. rewrite Nat2Z.inj_succ, Z.pow_succ_r by lia. done. Qed.

#[export] Hint Rewrite Z_shiftl_2 Z_land_255 : ocw.
#[export] Hint Rewrite @length_app @length_cons @length_nil : ocw.
#[export] Hint Resolve Z_pow_256_pos : ocw.
