(* ===== verification/PyBytes.v ===== *)
(** Python's byte-level primitives that src/ocw.py calls: [int.to_bytes(n,
    'little')], [bytes.hex()] and [binascii.unhexlify], modelled on lists of
    [Byte.byte], together with their inverses ([int.from_bytes], used only
    in specifications) and the round-trip, length and error lemmas every
    encoder of the development relies on. *)

From Stdlib Require Import Strings.Byte Strings.Ascii.
From S2P Require Import Prelude.

Abbreviation bytes := (list byte).

#[export] Instance byte_eq_dec : EqDecision byte := Byte.byte_eq_dec.

(** ** Bytes as numbers *)

(** The byte whose value is [z mod 256]. *)
Definition byte_of_Z (z : Z) : byte :=
  default x00 (Byte.of_N (Z.to_N (z mod 256))).

Definition Z_of_byte (b : byte) : Z := Z.of_N (Byte.to_N b).

(** [le_bytes n v]: the [n] least significant base-256 digits of [v],
    least significant first. *)
Fixpoint le_bytes (n : nat) (v : Z) : bytes :=
  match n with
  | O => []
  | S n => byte_of_Z v :: le_bytes n (v / 256)
  end.

(** [int.from_bytes(bs, 'little')]. *)
Fixpoint le_int (bs : bytes) : Z :=
  match bs with
  | [] => 0
  | b :: bs => Z_of_byte b + 256 * le_int bs
  end.

(** [v.to_bytes(n, 'little')] (unsigned): [OverflowError] on a negative
    [v] and on a [v] that does not fit in [n] bytes. *)
Definition to_bytes (n : nat) (v : Z) : res bytes :=
  if v <? 0 then raise OverflowError
  else if 256 ^ Z.of_nat n <=? v then raise OverflowError
  else Ok (le_bytes n v).

(** ** Hexadecimal text *)

(** The digit [bytes.hex()] prints for [0 <= d < 16] (lower case). *)
Definition hex_digit (d : Z) : ascii :=
  ascii_of_N (Z.to_N (if d <? 10 then 48 + d else 87 + d)).

(** The value [binascii] gives a hexadecimal digit, either case. *)
Definition hex_value (c : ascii) : option Z :=
  let n := Z.of_N (N_of_ascii c) in
  if (48 <=? n) && (n <=? 57) then Some (n - 48)
  else if (97 <=? n) && (n <=? 102) then Some (n - 87)
  else if (65 <=? n) && (n <=? 70) then Some (n - 55)
  else None.

(** [bs.hex()]. *)
Fixpoint bytes_hex (bs : bytes) : string :=
  match bs with
  | [] => ""
  | b :: bs =>
      String (hex_digit (Z_of_byte b / 16))
        (String (hex_digit (Z_of_byte b mod 16)) (bytes_hex bs))
  end.

Definition is_ascii7 (c : ascii) : bool := (N_of_ascii c <? 128)%N.

Fixpoint str_forallb (p : ascii → bool) (s : string) : bool :=
  match s with
  | EmptyString => true
  | String c s => p c && str_forallb p s
  end.

(** The digit-pair loop of [binascii.a2b_hex]. *)
Fixpoint unhex_pairs (s : string) : res bytes :=
  match s with
  | EmptyString => Ok []
  | String _ EmptyString => raise BinasciiError
  | String c1 (String c2 s) =>
      match hex_value c1, hex_value c2 with
      | Some h, Some l => bs ← unhex_pairs s; Ok (byte_of_Z (16 * h + l) :: bs)
      | _, _ => raise BinasciiError
      end
  end.

(** [binascii.unhexlify(s)] on a [str]: [ValueError] when [s] is not
    ASCII, [binascii.Error] when its length is odd or a character is not a
    hexadecimal digit. *)
Definition unhexlify (s : string) : res bytes :=
  if negb (str_forallb is_ascii7 s) then raise ValueError
  else if Nat.odd (String.length s) then raise BinasciiError
  else unhex_pairs s.

(** ** Lemmas: bytes and numbers *)

Lemma Z_of_byte_range b : 0 ≤ Z_of_byte b < 256.
Proof.
  unfold Z_of_byte. pose proof (Byte.to_N_bounded b). lia.
Qed.

Lemma Z_of_byte_of_Z z : Z_of_byte (byte_of_Z z) = z mod 256.
Proof.
  unfold Z_of_byte, byte_of_Z.
  pose proof (Z.mod_pos_bound z 256 eq_refl) as Hz.
  destruct (Byte.of_N (Z.to_N (z mod 256))) as [b|] eqn:E; cbn.
  - apply Byte.to_of_N in E. rewrite E. lia.
  - apply Byte.of_N_None_iff in E. lia.
Qed.

Lemma byte_of_Z_of_byte b : byte_of_Z (Z_of_byte b) = b.
Proof.
  unfold byte_of_Z. rewrite Z.mod_small by apply Z_of_byte_range.
  unfold Z_of_byte. rewrite N2Z.id, Byte.of_to_N. done.
Qed.

Lemma Z_of_byte_inj b1 b2 : Z_of_byte b1 = Z_of_byte b2 → b1 = b2.
Proof.
  intros H. rewrite <-(byte_of_Z_of_byte b1), <-(byte_of_Z_of_byte b2).
  by rewrite H.
Qed.

Lemma byte_of_Z_mod z : byte_of_Z (z mod 256) = byte_of_Z z.
Proof. unfold byte_of_Z. by rewrite Z.mod_mod by lia. Qed.

Lemma length_le_bytes n v : length (le_bytes n v) = n.
Proof. revert v; induction n; intros; cbn; auto. Qed.

Lemma le_int_range bs : 0 ≤ le_int bs < 256 ^ Z.of_nat (length bs).
Proof.
  induction bs as [|b bs IH]; [cbn; lia|].
  cbn [le_int length]. rewrite Z_pow_256_S.
  pose proof (Z_of_byte_range b). lia.
Qed.

(** Reading back [n] digits gives the value modulo [256^n]. *)
Lemma le_int_le_bytes_mod n v :
  le_int (le_bytes n v) = v mod 256 ^ Z.of_nat n.
Proof.
  revert v; induction n as [|n IH]; intros v.
  - cbn. by rewrite Z.mod_1_r.
  - cbn [le_bytes le_int]. rewrite Z_of_byte_of_Z, IH, Z_pow_256_S.
    rewrite Z.rem_mul_r; auto with ocw lia.
Qed.

Lemma le_int_le_bytes n v :
  0 ≤ v < 256 ^ Z.of_nat n → le_int (le_bytes n v) = v.
Proof. intros. rewrite le_int_le_bytes_mod. by apply Z.mod_small. Qed.

Lemma le_bytes_le_int bs : le_bytes (length bs) (le_int bs) = bs.
Proof.
  induction bs as [|b bs IH]; [done|].
  cbn [length le_bytes le_int]. pose proof (Z_of_byte_range b).
  f_equal.
  - rewrite <-byte_of_Z_mod.
    replace ((Z_of_byte b + 256 * le_int bs) mod 256) with (Z_of_byte b)
      by (Z.div_mod_to_equations; lia).
    apply byte_of_Z_of_byte.
  - replace ((Z_of_byte b + 256 * le_int bs) / 256) with (le_int bs)
      by (Z.div_mod_to_equations; lia).
    exact IH.
Qed.

Lemma le_bytes_inj n v1 v2 :
  0 ≤ v1 < 256 ^ Z.of_nat n → 0 ≤ v2 < 256 ^ Z.of_nat n →
  le_bytes n v1 = le_bytes n v2 → v1 = v2.
Proof.
  intros H1 H2 E. rewrite <-(le_int_le_bytes n v1), <-(le_int_le_bytes n v2)
    by done. by rewrite E.
Qed.

Lemma le_bytes_mod n v : le_bytes n (v mod 256 ^ Z.of_nat n) = le_bytes n v.
Proof.
  rewrite <-le_int_le_bytes_mod.
  rewrite <-(length_le_bytes n v) at 1. apply le_bytes_le_int.
Qed.

(** ** Lemmas: [to_bytes] *)

Lemma to_bytes_Ok n v :
  0 ≤ v < 256 ^ Z.of_nat n → to_bytes n v = Ok (le_bytes n v).
Proof. intros. unfold to_bytes. case_zbool; done || lia. Qed.

Lemma to_bytes_negative n v : v < 0 → to_bytes n v = raise OverflowError.
Proof. intros. unfold to_bytes. case_zbool; done || lia. Qed.

Lemma to_bytes_too_big n v :
  256 ^ Z.of_nat n ≤ v → to_bytes n v = raise OverflowError.
Proof. intros. unfold to_bytes. case_zbool; done || lia. Qed.

Lemma to_bytes_Ok_inv n v bs :
  to_bytes n v = Ok bs →
  0 ≤ v < 256 ^ Z.of_nat n ∧ bs = le_bytes n v ∧ length bs = n.
Proof.
  unfold to_bytes. case_zbool; intros; res_simpl. subst.
  by rewrite length_le_bytes.
Qed.

Lemma to_bytes_Raise_inv n v e :
  to_bytes n v = Raise e → e = OverflowError ∧ ¬ (0 ≤ v < 256 ^ Z.of_nat n).
Proof. unfold to_bytes. case_zbool; intros; res_simpl; split; done || lia. Qed.

Lemma to_bytes_app_inj n v1 v2 (r1 r2 : bytes) b1 b2 :
  to_bytes n v1 = Ok b1 → to_bytes n v2 = Ok b2 →
  b1 ++ r1 = b2 ++ r2 → v1 = v2 ∧ r1 = r2.
Proof.
  intros (H1 & -> & L1)%to_bytes_Ok_inv (H2 & -> & L2)%to_bytes_Ok_inv E.
  apply app_inj_1 in E as [E ->]; [|congruence].
  split; [|done]. by eapply le_bytes_inj.
Qed.

#[export] Hint Rewrite length_le_bytes Z_of_byte_of_Z byte_of_Z_of_byte : ocw.
#[export] Hint Resolve Z_of_byte_range le_int_range : ocw.

(** ** Lemmas: hexadecimal text *)

Lemma hex_value_digit d : 0 ≤ d < 16 → hex_value (hex_digit d) = Some d.
Proof.
  intros Hd. unfold hex_value, hex_digit.
  rewrite N_ascii_embedding by (case_zbool; lia).
  rewrite Z2N.id by (case_zbool; lia).
  repeat (case_zbool; cbn [andb]; try lia); f_equal; lia.
Qed.

Lemma is_ascii7_hex_digit d : 0 ≤ d < 16 → is_ascii7 (hex_digit d) = true.
Proof.
  intros Hd. unfold is_ascii7, hex_digit.
  rewrite N_ascii_embedding by (case_zbool; lia).
  apply N.ltb_lt. case_zbool; lia.
Qed.

Lemma byte_nibbles b :
  0 ≤ Z_of_byte b / 16 < 16 ∧ 0 ≤ Z_of_byte b mod 16 < 16 ∧
  16 * (Z_of_byte b / 16) + Z_of_byte b mod 16 = Z_of_byte b.
Proof. pose proof (Z_of_byte_range b). Z.div_mod_to_equations; lia. Qed.

Lemma length_bytes_hex bs :
  String.length (bytes_hex bs) = (2 * length bs)%nat.
Proof. induction bs as [|b bs IH]; cbn [bytes_hex String.length length]; lia. Qed.

Lemma bytes_hex_ascii bs : str_forallb is_ascii7 (bytes_hex bs) = true.
Proof.
  induction bs as [|b bs IH]; [done|]. cbn [bytes_hex str_forallb].
  destruct (byte_nibbles b) as (?&?&_).
  by rewrite !is_ascii7_hex_digit, IH.
Qed.

Lemma unhex_pairs_bytes_hex bs : unhex_pairs (bytes_hex bs) = Ok bs.
Proof.
  induction bs as [|b bs IH]; [done|]. cbn [bytes_hex unhex_pairs].
  destruct (byte_nibbles b) as (?&?&Hb).
  rewrite !hex_value_digit, IH by done. res_simpl.
  by rewrite Hb, byte_of_Z_of_byte.
Qed.

(** Induction on a string two characters at a time, the way the digit-pair
    loop consumes it. *)
Lemma string_pair_ind (P : string → Prop) :
  P EmptyString →
  (∀ c, P (String c EmptyString)) →
  (∀ c1 c2 s, P s → P (String c1 (String c2 s))) →
  ∀ s, P s.
Proof.
  intros H0 H1 H2 s. enough (P s ∧ ∀ c, P (String c s)) by tauto.
  induction s as [|c s [IH1 IH2]]; split; auto.
Qed.

Lemma unhex_pairs_length s bs :
  unhex_pairs s = Ok bs → String.length s = (2 * length bs)%nat.
Proof.
  revert bs. induction s as [|c|c1 c2 s IH] using string_pair_ind;
    intros bs; cbn [unhex_pairs]; [by intros [= <-]|done|].
  destruct (hex_value c1), (hex_value c2); try done.
  destruct (unhex_pairs s) as [bs'|] eqn:E; res_simpl; [|done].
  intros [= <-]. cbn [String.length length]. rewrite (IH bs'); [lia|done].
Qed.

(** [unhexlify] undoes [hex]. *)
Lemma unhexlify_bytes_hex bs : unhexlify (bytes_hex bs) = Ok bs.
Proof.
  unfold unhexlify. rewrite bytes_hex_ascii, length_bytes_hex. cbn [negb].
  rewrite Nat.odd_mul, Nat.odd_2. apply unhex_pairs_bytes_hex.
Qed.

Lemma unhexlify_Ok_length s bs :
  unhexlify s = Ok bs → String.length s = (2 * length bs)%nat.
Proof.
  unfold unhexlify. destruct (negb _); [done|].
  destruct (Nat.odd _); [done|]. apply unhex_pairs_length.
Qed.

Lemma unhexlify_odd s :
  Nat.odd (String.length s) = true → is_Raise (unhexlify s).
Proof.
  intros H. unfold unhexlify. rewrite H. destruct (negb _); by eexists.
Qed.

(** Every failure of [unhexlify] is one of its two exception classes. *)
Lemma unhexlify_Raise s e :
  unhexlify s = Raise e → e = ValueError ∨ e = BinasciiError.
Proof.
  unfold unhexlify. destruct (negb _); [intros [= <-]; by left|].
  destruct (Nat.odd _); [intros [= <-]; by right|].
  revert e. induction s as [|c|c1 c2 s IH] using string_pair_ind;
    intros e; cbn [unhex_pairs]; [done|intros [= <-]; by right|].
  destruct (hex_value c1), (hex_value c2); try (intros [= <-]; by right).
  destruct (unhex_pairs s); res_simpl; [done|]. intros [= <-]. by apply IH.
Qed.
