(* ===== verification/Compact.v ===== *)
(** CompactEncoder: [encode_compact_u32] of src/ocw.py (lines 53-64), the
    tagged variable-length integer format used for every length prefix of
    the payload.

    The file holds the encoder as the code writes it (shifts, masks and
    [to_bytes]), the table of the specification as two functions
    ([compact_tag], [compact_width]), the reference decoder of the chain
    side, and the
    theorems: the arithmetic form of every tier, widths and tag bits,
    totality and the overflow bound, the round trip through the reference
    decoder below 2^30, prefix-freeness, and the two places where the code
    leaves its contract (negative inputs, values from 2^30 on).

    The reference decoder is the decoder of SCALE [Compact<u32>] as the
    chain runs it (parity-scale-codec).  Section 4.1 of the specification
    asks the encoder to match that decoder byte for byte; the table of the
    same section describes the encoder, its fourth tier included, and is
    not the decoder. *)

From Stdlib Require Import Strings.Byte.
From S2P Require Import Prelude PyBytes.

(** ** The encoder, as in the source *)

Definition encode_compact_u32 (value : Z) : res bytes :=
  if value <? 64 then
    to_bytes 1 (Z.land (Z.shiftl value 2) 255)
  else if value <? 16384 then
    let val := Z.lor (Z.shiftl value 2) 1 in
    to_bytes 2 val
  else if value <? 1073741824 then
    let val := Z.lor (Z.shiftl value 2) 2 in
    to_bytes 4 val
  else
    let val := Z.lor (Z.shiftl value 2) 3 in
    to_bytes 5 val.

(** ** The table of the specification *)

Definition compact_tag (v : Z) : Z :=
  if v <? 64 then 0 else if v <? 16384 then 1
  else if v <? 1073741824 then 2 else 3.

Definition compact_width (v : Z) : nat :=
  if v <? 64 then 1%nat else if v <? 16384 then 2%nat
  else if v <? 1073741824 then 4%nat else 5%nat.

(** ** The reference decoder of the chain side *)

(** Read [n] bytes as a little-endian number. *)
Definition read_le (n : nat) (bs : bytes) : option (Z * bytes) :=
  if decide (n ≤ length bs)%nat then Some (le_int (take n bs), drop n bs)
  else None.

(** SCALE's [Compact<u32>] decoder: the mode is the low two bits of the
    first byte; each mode accepts only the values that need it; mode 3
    carries the value in the four bytes that follow a prefix whose upper six
    bits are zero. *)
Definition scale_decode_compact_u32 (bs : bytes) : option (Z * bytes) :=
  '(p, tl) ← read_le 1 bs;
  if decide (p mod 4 = 0) then Some (p / 4, tl)
  else if decide (p mod 4 = 1) then
    '(x, rest) ← read_le 2 bs;
    if (63 <? x / 4) && (x / 4 <=? 16383) then Some (x / 4, rest) else None
  else if decide (p mod 4 = 2) then
    '(x, rest) ← read_le 4 bs;
    if (16383 <? x / 4) && (x / 4 <=? 1073741823) then Some (x / 4, rest)
    else None
  else if decide (p / 4 = 0) then
    '(x, rest) ← read_le 4 tl;
    if 1073741823 <? x then Some (x, rest) else None
  else None.

(** SCALE's encoder on the fourth tier, for comparison with the code. *)
Definition scale_compact_big (v : Z) : bytes := x03 :: le_bytes 4 v.

(** ** Shared lemmas *)

Lemma read_le_app n v rest :
  0 ≤ v < 256 ^ Z.of_nat n →
  read_le n (le_bytes n v ++ rest) = Some (v, rest).
Proof.
  intros Hv. unfold read_le.
  rewrite decide_True by (rewrite length_app, length_le_bytes; lia).
  rewrite take_app_length', drop_app_length' by (by rewrite length_le_bytes).
  by rewrite le_int_le_bytes.
Qed.

Lemma read_le_Some n bs v rest :
  read_le n bs = Some (v, rest) →
  bs = le_bytes n v ++ rest ∧ 0 ≤ v < 256 ^ Z.of_nat n.
Proof.
  unfold read_le. case_decide as Hn; [|done]. intros [= <- <-].
  assert (length (take n bs) = n) as Hl by (rewrite length_take; lia).
  split.
  - pose proof (le_bytes_le_int (take n bs)) as H. rewrite Hl in H.
    by rewrite H, take_drop.
  - pose proof (le_int_range (take n bs)) as H. by rewrite Hl in H.
Qed.

(** The first of [n >= 1] little-endian bytes carries the value modulo
    256, hence its low two bits. *)
Lemma read_le_1_le_bytes n v rest :
  read_le 1 (le_bytes (S n) v ++ rest)
  = Some (v mod 256, le_bytes n (v / 256) ++ rest).
Proof.
  unfold read_le. cbn [le_bytes app length take drop le_int].
  rewrite decide_True by lia. rewrite Z_of_byte_of_Z, Z.mul_0_r, Z.add_0_r.
  done.
Qed.

(** The encoder in arithmetic: tier [compact_width], value [4 v + tag]. *)
Lemma encode_compact_u32_arith v :
  0 ≤ v →
  encode_compact_u32 v = to_bytes (compact_width v) (4 * v + compact_tag v).
Proof.
  intros Hv. unfold encode_compact_u32, compact_width, compact_tag.
  case_zbool; cbn zeta; rewrite ?Z_lor_shiftl_2 by lia; [|done..].
  autorewrite with ocw. f_equal. rewrite Z.mod_small; lia.
Qed.

Lemma compact_width_range v :
  0 ≤ v < 2 ^ 38 → 0 ≤ 4 * v + compact_tag v < 256 ^ Z.of_nat (compact_width v).
Proof. unfold compact_width, compact_tag. case_zbool; cbn; lia. Qed.

(** On its domain the encoder returns the little-endian digits of
    [4 v + tag]. *)
Lemma encode_compact_u32_Ok v :
  0 ≤ v < 2 ^ 38 →
  encode_compact_u32 v = Ok (le_bytes (compact_width v) (4 * v + compact_tag v)).
Proof.
  intros Hv. rewrite encode_compact_u32_arith by lia.
  apply to_bytes_Ok, compact_width_range, Hv.
Qed.

Lemma encode_compact_u32_Ok_inv v bs :
  0 ≤ v → encode_compact_u32 v = Ok bs →
  v < 2 ^ 38 ∧ bs = le_bytes (compact_width v) (4 * v + compact_tag v).
Proof.
  intros Hv. rewrite encode_compact_u32_arith by done.
  intros (Hr & -> & _)%to_bytes_Ok_inv. split; [|done].
  revert Hr. unfold compact_width, compact_tag. case_zbool; cbn; lia.
Qed.

Lemma compact_tag_range v : 0 ≤ compact_tag v < 4.
Proof. unfold compact_tag. case_zbool; lia. Qed.

Lemma compact_width_pos v : ∃ n, compact_width v = S n.
Proof. unfold compact_width. case_zbool; eauto. Qed.

Lemma compact_width_of_tag v :
  compact_width v
  = if decide (compact_tag v = 0) then 1%nat
    else if decide (compact_tag v = 1) then 2%nat
    else if decide (compact_tag v = 2) then 4%nat else 5%nat.
Proof. unfold compact_width, compact_tag. by case_zbool. Qed.

(** The first byte of an encoding holds [4 v + tag] modulo 256. *)
Lemma encode_compact_u32_head v b bs :
  0 ≤ v → encode_compact_u32 v = Ok (b :: bs) →
  Z_of_byte b = (4 * v + compact_tag v) mod 256.
Proof.
  intros Hv [_ E]%encode_compact_u32_Ok_inv; [|done].
  destruct (compact_width_pos v) as [n Hn]. rewrite Hn in E.
  injection E as -> _. apply Z_of_byte_of_Z.
Qed.

Ltac solve_mod := Z.div_mod_to_equations; lia.

(** The chain's decoder reads back what the code emits below 2^30. *)
Lemma scale_decode_encode_compact v bs rest :
  0 ≤ v < 2 ^ 30 →
  encode_compact_u32 v = Ok bs →
  scale_decode_compact_u32 (bs ++ rest) = Some (v, rest).
Proof.
  intros Hv. rewrite encode_compact_u32_Ok by lia. intros [= <-].
  unfold scale_decode_compact_u32, compact_width, compact_tag.
  case_zbool; try lia; rewrite read_le_1_le_bytes; cbn [mbind option_bind].
  - rewrite decide_True by solve_mod. repeat f_equal; solve_mod.
  - rewrite decide_False, decide_True by solve_mod.
    rewrite read_le_app by (cbn; lia). cbn [mbind option_bind].
    replace ((4 * v + 1) / 4) with v by solve_mod.
    by rewrite (proj2 (Z.ltb_lt _ _)), (proj2 (Z.leb_le _ _)) by lia.
  - rewrite !decide_False, decide_True by solve_mod.
    rewrite read_le_app by (cbn; lia). cbn [mbind option_bind].
    replace ((4 * v + 2) / 4) with v by solve_mod.
    by rewrite (proj2 (Z.ltb_lt _ _)), (proj2 (Z.leb_le _ _)) by lia.
Qed.

(** The width of an encoding, negative inputs included. *)
Lemma length_encode_compact_u32 v bs :
  encode_compact_u32 v = Ok bs → length bs = compact_width v.
Proof.
  destruct (decide (0 ≤ v)) as [Hv|Hv].
  - intros [_ ->]%encode_compact_u32_Ok_inv; [|done]. apply length_le_bytes.
  - unfold encode_compact_u32, compact_width.
    rewrite (proj2 (Z.ltb_lt v 64)) by lia.
    by intros (_ & _ & ?)%to_bytes_Ok_inv.
Qed.

(** ** Theorems *)

(** C6 (round trip): every value from 0 to 2^30 - 1 is encoded, in the width of its
    tier, to bytes that the chain's compact decoder reads back as the value,
    returning whatever follows the encoding untouched. *)
Theorem compact_roundtrip v :
  0 ≤ v < 2 ^ 30 →
  ∃ bs, encode_compact_u32 v = Ok bs ∧
        length bs = compact_width v ∧
        ∀ rest, scale_decode_compact_u32 (bs ++ rest) = Some (v, rest).
Proof.
  intros Hv. eexists. split; [apply encode_compact_u32_Ok; lia|].
  split; [apply length_le_bytes|]. intros rest.
  apply scale_decode_encode_compact; [done|]. apply encode_compact_u32_Ok; lia.
Qed.

Lemma compact_roundtrip_witness :
  ∃ bs, encode_compact_u32 64 = Ok bs ∧
        length bs = compact_width 64 ∧
        ∀ rest, scale_decode_compact_u32 (bs ++ rest) = Some (64, rest).
Proof. apply (compact_roundtrip 64). lia. Defined.

(** C22 (table): the encoding of a non-negative value has the width the
    table of the specification gives its tier (1, 2, 4 or 5 bytes), and the
    low two bits of its first byte are the tag of that tier. *)
Theorem encode_compact_u32_table v bs :
  0 ≤ v → encode_compact_u32 v = Ok bs →
  length bs = compact_width v ∧
  ∃ b bs', bs = b :: bs' ∧ Z_of_byte b mod 4 = compact_tag v.
Proof.
  intros Hv E. split; [by apply length_encode_compact_u32|].
  pose proof (length_encode_compact_u32 _ _ E) as Hl.
  destruct (compact_width_pos v) as [n Hn]. rewrite Hn in Hl.
  destruct bs as [|b bs']; [done|]. exists b, bs'. split; [done|].
  rewrite (encode_compact_u32_head v b bs') by done.
  pose proof (compact_tag_range v). solve_mod.
Qed.

Lemma encode_compact_u32_table_witness :
  length [xfe; xff; xff; xff] = compact_width 1073741823 ∧
  ∃ b bs', [xfe; xff; xff; xff] = b :: bs' ∧
           Z_of_byte b mod 4 = compact_tag 1073741823.
Proof. apply encode_compact_u32_table; [lia | reflexivity]. Defined.

(** C30 (domain): on non-negative values the encoder succeeds exactly below
    2^38, the largest value whose shifted form fits the five bytes of the
    last tier, and raises [OverflowError] from there on. *)
Theorem encode_compact_u32_domain v :
  0 ≤ v →
  (is_Ok (encode_compact_u32 v) ↔ v < 2 ^ 38) ∧
  (2 ^ 38 ≤ v → encode_compact_u32 v = Raise OverflowError).
Proof.
  intros Hv. repeat split.
  - intros [bs E]. by apply encode_compact_u32_Ok_inv in E as [? _].
  - intros. rewrite encode_compact_u32_Ok by lia. by eexists.
  - intros. rewrite encode_compact_u32_arith by lia.
    apply to_bytes_too_big. unfold compact_width, compact_tag.
    case_zbool; cbn; lia.
Qed.

Lemma encode_compact_u32_domain_witness :
  (is_Ok (encode_compact_u32 (2 ^ 38)) ↔ 2 ^ 38 < 2 ^ 38) ∧
  (2 ^ 38 ≤ 2 ^ 38 → encode_compact_u32 (2 ^ 38) = Raise OverflowError).
Proof. apply encode_compact_u32_domain. lia. Defined.

(** C29 (negative input): a negative value does not raise; the mask of the
    first tier turns it into the single byte [4 v mod 256]. *)
Theorem encode_compact_u32_negative v :
  v < 0 → encode_compact_u32 v = Ok [byte_of_Z (4 * v)].
Proof.
  intros Hv. unfold encode_compact_u32.
  rewrite (proj2 (Z.ltb_lt v 64)) by lia. autorewrite with ocw.
  rewrite to_bytes_Ok by (cbn; solve_mod).
  cbn [le_bytes]. by rewrite byte_of_Z_mod.
Qed.

Lemma encode_compact_u32_negative_witness :
  encode_compact_u32 (-1) = Ok [byte_of_Z (4 * -1)].
Proof. apply encode_compact_u32_negative. lia. Defined.

(** C23 (fourth tier): for a 32-bit value from 2^30 on, what the code emits
    is not SCALE's big-integer form, and the chain's decoder rejects it
    whatever follows. *)
Theorem compact_big_tier_rejected v bs rest :
  2 ^ 30 ≤ v < 2 ^ 32 →
  encode_compact_u32 v = Ok bs →
  bs ≠ scale_compact_big v ∧ scale_decode_compact_u32 (bs ++ rest) = None.
Proof.
  intros Hv. rewrite encode_compact_u32_Ok by lia. intros [= <-].
  unfold compact_width, compact_tag. case_zbool; try lia. split.
  - unfold scale_compact_big. intros E%(f_equal tail)%(f_equal le_int).
    change (le_int (le_bytes 4 ((4 * v + 3) / 256)) = le_int (le_bytes 4 v)) in E.
    rewrite !le_int_le_bytes in E by (cbn; solve_mod). solve_mod.
  - unfold scale_decode_compact_u32.
    rewrite read_le_1_le_bytes; cbn [mbind option_bind].
    rewrite !decide_False by solve_mod. case_decide; [|done].
    rewrite read_le_app by (cbn; solve_mod). cbn [mbind option_bind].
    by rewrite (proj2 (Z.ltb_ge _ _)) by solve_mod.
Qed.

Lemma compact_big_tier_rejected_witness :
  [x03; x00; x00; x00; x01] ≠ scale_compact_big (2 ^ 30) ∧
  scale_decode_compact_u32 ([x03; x00; x00; x00; x01] ++ []) = None.
Proof. apply (compact_big_tier_rejected (2 ^ 30)); [lia | reflexivity]. Defined.

(** C31 (prefix-free): two encodings of non-negative values, each followed
    by arbitrary bytes, give the same byte string only when the values and
    the trailing bytes agree; the format can be parsed in one way only. *)
Theorem encode_compact_u32_prefix_free v1 v2 b1 b2 r1 r2 :
  0 ≤ v1 → 0 ≤ v2 →
  encode_compact_u32 v1 = Ok b1 → encode_compact_u32 v2 = Ok b2 →
  b1 ++ r1 = b2 ++ r2 → v1 = v2 ∧ r1 = r2.
Proof.
  intros H1 H2 E1 E2 E.
  assert (compact_tag v1 = compact_tag v2) as Ht.
  { destruct (compact_width_pos v1) as [n1 Hn1], (compact_width_pos v2) as [n2 Hn2].
    pose proof (encode_compact_u32_Ok_inv _ _ H1 E1) as [_ ->].
    pose proof (encode_compact_u32_Ok_inv _ _ H2 E2) as [_ ->].
    rewrite Hn1, Hn2 in E. injection E as Eb%(f_equal Z_of_byte) _.
    rewrite !Z_of_byte_of_Z in Eb.
    pose proof (compact_tag_range v1). pose proof (compact_tag_range v2).
    solve_mod. }
  rewrite encode_compact_u32_arith in E1, E2 by done.
  rewrite (compact_width_of_tag v1), Ht, <-compact_width_of_tag in E1.
  destruct (to_bytes_app_inj _ _ _ _ _ _ _ E1 E2 E). split; [lia|done].
Qed.

Lemma encode_compact_u32_prefix_free_witness :
  63 = 63 ∧ [x01; x01] = [x01; x01].
Proof.
  apply (encode_compact_u32_prefix_free 63 63 [xfc] [xfc]);
    [lia | lia | reflexivity | reflexivity | reflexivity].
Defined.

(** Fixed vectors at the tier boundaries (section 8 of the specification). *)
Example encode_compact_u32_vectors :
  encode_compact_u32 0 = Ok [x00] ∧
  encode_compact_u32 63 = Ok [xfc] ∧
  encode_compact_u32 64 = Ok [x01; x01] ∧
  encode_compact_u32 16383 = Ok [xfd; xff] ∧
  encode_compact_u32 16384 = Ok [x02; x00; x01; x00] ∧
  encode_compact_u32 1073741823 = Ok [xfe; xff; xff; xff] ∧
  encode_compact_u32 1073741824 = Ok [x03; x00; x00; x00; x01] ∧
  encode_compact_u32 1073741829 = Ok [x17; x00; x00; x00; x01].
Proof. by vm_compute. Qed.
