(* ===== verification/Pulse.v ===== *)
(** PulseValidator: [try_into_pulse] of src/ocw.py (lines 40-51).

    A beacon response is whatever [response.json()] returned: a value of
    the type [json] below (JSON numbers with a fraction or an exponent are
    left out of the model).  The validated record is [Pulse]; its [round]
    field keeps the JSON value found in the response, because the code
    stores it unchecked.  The theorems characterise success exactly, give
    the exception of every failing branch and their precedence, and show the
    invariant that a validated pulse carries 32 bytes of randomness. *)

From Stdlib Require Import Strings.Byte.
From stdpp Require Import gmap.
From S2P Require Import Prelude PyBytes.

(** ** Data *)

(** The values [json.loads] builds: [None], [bool], [int], [str], [list]
    and [dict] with string keys. *)
#[warnings="-register-all"]
Inductive json : Type :=
| JNull
| JBool (b : bool)
| JInt (z : Z)
| JStr (s : string)
| JArr (l : list json)
| JObj (m : gmap string json).

(** The dictionary [try_into_pulse] returns. *)
Record Pulse : Type := mkPulse {
  round : json;
  randomness : bytes;
  signature : bytes;
}.

(** ** Operations *)

(** [v[key]] for a string key: only a dictionary can be indexed by a
    string, and a missing key raises [KeyError]. *)
Definition py_getitem (v : json) (key : string) : res json :=
  match v with
  | JObj m =>
      match m !! key with
      | Some x => Ok x
      | None => raise (KeyError key)
      end
  | _ => raise TypeError
  end.

(** [binascii.unhexlify(v)]: a value that is not a string is a
    [TypeError]. *)
Definition py_unhexlify (v : json) : res bytes :=
  match v with
  | JStr s => unhexlify s
  | _ => raise TypeError
  end.

Definition try_into_pulse (drand_resp : json) : res Pulse :=
  round_num ← py_getitem drand_resp "round";
  randomness_hex ← py_getitem drand_resp "randomness";
  randomness ← py_unhexlify randomness_hex;
  signature_hex ← py_getitem drand_resp "signature";
  signature ← py_unhexlify signature_hex;
  if decide (length randomness ≠ 32%nat) then
    raise (PyException "Randomness is not 32 bytes")
  else
    Ok {| round := round_num; randomness := randomness; signature := signature |}.

(** The response a beacon sends for a pulse: the three fields, the byte
    strings in hexadecimal. *)
Definition pulse_response (r : json) (rnd sig : bytes) : json :=
  JObj (<["round" := r]> (<["randomness" := JStr (bytes_hex rnd)]>
       (<["signature" := JStr (bytes_hex sig)]> ∅))).

(** ** Lemmas *)

Lemma py_getitem_Ok v key x :
  py_getitem v key = Ok x ↔ ∃ m, v = JObj m ∧ m !! key = Some x.
Proof.
  destruct v; cbn; try (split; [done|by intros (? & [=] & ?)]).
  destruct (m !! key) eqn:E; split.
  - intros [= <-]; eauto.
  - intros (? & [= <-] & ?). congruence.
  - done.
  - intros (? & [= <-] & ?). congruence.
Qed.

Lemma py_unhexlify_Ok v bs :
  py_unhexlify v = Ok bs ↔ ∃ s, v = JStr s ∧ unhexlify s = Ok bs.
Proof.
  destruct v; cbn; try (split; [done|by intros (? & [=] & ?)]).
  split; [eauto|]. by intros (? & [= <-] & ?).
Qed.

Lemma pulse_response_lookup r rnd sig :
  py_getitem (pulse_response r rnd sig) "round" = Ok r ∧
  py_getitem (pulse_response r rnd sig) "randomness" = Ok (JStr (bytes_hex rnd)) ∧
  py_getitem (pulse_response r rnd sig) "signature" = Ok (JStr (bytes_hex sig)).
Proof. by vm_compute. Qed.

(** What a successful validation says about the response. *)
Lemma try_into_pulse_inv resp p :
  try_into_pulse resp = Ok p →
  ∃ m hr hs,
    resp = JObj m ∧
    m !! "round" = Some (round p) ∧
    m !! "randomness" = Some (JStr hr) ∧ unhexlify hr = Ok (randomness p) ∧
    m !! "signature" = Some (JStr hs) ∧ unhexlify hs = Ok (signature p) ∧
    length (randomness p) = 32%nat.
Proof.
  unfold try_into_pulse.
  intros (r & (m & -> & Hr)%py_getitem_Ok & H)%res_bind_Ok.
  apply res_bind_Ok in H as (jr & (? & [= <-] & Hjr)%py_getitem_Ok & H).
  apply res_bind_Ok in H as (rb & (hr & -> & Hrb)%py_unhexlify_Ok & H).
  apply res_bind_Ok in H as (js & (? & [= <-] & Hjs)%py_getitem_Ok & H).
  apply res_bind_Ok in H as (sb & (hs & -> & Hsb)%py_unhexlify_Ok & H).
  case_decide as Hl; [done|]. injection H as <-.
  exists m, hr, hs. cbn. repeat split; try done; lia.
Qed.

(** Validation of a dictionary whose two byte fields are strings. *)
Lemma try_into_pulse_fields m r hr hs :
  m !! "round" = Some r →
  m !! "randomness" = Some (JStr hr) → m !! "signature" = Some (JStr hs) →
  try_into_pulse (JObj m)
  = rb ← unhexlify hr; sb ← unhexlify hs;
    if decide (length rb ≠ 32%nat)
    then raise (PyException "Randomness is not 32 bytes")
    else Ok (mkPulse r rb sb).
Proof. intros Hr Hjr Hjs. unfold try_into_pulse. cbn. by rewrite Hr, Hjr, Hjs. Qed.

Lemma try_into_pulse_response_fields r rnd sig :
  try_into_pulse (pulse_response r rnd sig)
  = if decide (length rnd ≠ 32%nat)
    then raise (PyException "Randomness is not 32 bytes")
    else Ok (mkPulse r rnd sig).
Proof.
  unfold pulse_response.
  rewrite (try_into_pulse_fields _ r (bytes_hex rnd) (bytes_hex sig))
    by (by vm_compute).
  by rewrite !unhexlify_bytes_hex.
Qed.

(** ** Theorems *)

(** C7 (success, exactly): [try_into_pulse] returns a pulse exactly when the
    response is a dictionary holding the three keys, the two byte fields are
    strings of hexadecimal digits, and the randomness decodes to 32 bytes;
    the pulse then carries the decoded bytes and the [round] value as it
    was found, whatever JSON value that is. *)
Theorem try_into_pulse_Ok resp p :
  try_into_pulse resp = Ok p ↔
  ∃ m hr hs,
    resp = JObj m ∧
    m !! "round" = Some (round p) ∧
    m !! "randomness" = Some (JStr hr) ∧ unhexlify hr = Ok (randomness p) ∧
    m !! "signature" = Some (JStr hs) ∧ unhexlify hs = Ok (signature p) ∧
    length (randomness p) = 32%nat.
Proof.
  split; [apply try_into_pulse_inv|].
  intros (m & hr & hs & -> & Hr & Hjr & Hrb & Hjs & Hsb & Hl).
  rewrite (try_into_pulse_fields m _ hr hs), Hrb, Hsb by done. cbn.
  rewrite decide_False by lia. by destruct p.
Qed.

(** C27 (invariant): a validated pulse carries exactly 32 bytes of
    randomness. *)
Theorem try_into_pulse_randomness_32 resp p :
  try_into_pulse resp = Ok p → length (randomness p) = 32%nat.
Proof. intros (?&?&?&?&?&?&?&?&?&?)%try_into_pulse_inv. done. Qed.

Lemma try_into_pulse_randomness_32_witness :
  length (randomness (mkPulse (JInt 7) (replicate 32 xab) [x01])) = 32%nat.
Proof.
  apply (try_into_pulse_randomness_32
           (pulse_response (JInt 7) (replicate 32 xab) [x01])).
  by vm_compute.
Defined.

(** Round trip: the response the beacon builds from a round value, 32
    bytes of randomness and a signature validates to the pulse holding
    exactly these; the round may be any JSON value. *)
Theorem try_into_pulse_response r rnd sig :
  length rnd = 32%nat →
  try_into_pulse (pulse_response r rnd sig) = Ok (mkPulse r rnd sig).
Proof.
  intros Hl. rewrite try_into_pulse_response_fields.
  by rewrite decide_False by lia.
Qed.

Lemma try_into_pulse_response_witness :
  try_into_pulse (pulse_response (JStr "not a number") (replicate 32 x00) [])
  = Ok (mkPulse (JStr "not a number") (replicate 32 x00) []).
Proof. apply try_into_pulse_response. reflexivity. Defined.

(** C35 (wrong length): on a response built from the three fields, the
    byte strings in lower-case hexadecimal, whose randomness is not 32 bytes
    long, validation raises the length error. *)
Theorem try_into_pulse_bad_length r rnd sig :
  length rnd ≠ 32%nat →
  try_into_pulse (pulse_response r rnd sig)
  = Raise (PyException "Randomness is not 32 bytes").
Proof.
  intros Hl. rewrite try_into_pulse_response_fields.
  by rewrite decide_True by done.
Qed.

Lemma try_into_pulse_bad_length_witness :
  try_into_pulse (pulse_response (JInt 1) (replicate 31 x00) [])
  = Raise (PyException "Randomness is not 32 bytes").
Proof. apply try_into_pulse_bad_length. cbn. lia. Defined.

(** A response that is not a dictionary raises [TypeError], and a
    dictionary without the key [round] raises [KeyError]. *)
Lemma try_into_pulse_malformed resp :
  (∀ m, resp = JObj m → m !! "round" = None) →
  try_into_pulse resp = Raise TypeError ∨
  try_into_pulse resp = Raise (KeyError "round").
Proof.
  intros H. destruct resp; try by left.
  right. unfold try_into_pulse. cbn. by rewrite (H m).
Qed.

(** C36 (precedence): the signature is decoded before the length of the
    randomness is looked at, so a malformed signature hides a randomness of
    the wrong length. *)
Theorem try_into_pulse_signature_first m r hr rb hs e :
  m !! "round" = Some r →
  m !! "randomness" = Some (JStr hr) → unhexlify hr = Ok rb →
  m !! "signature" = Some (JStr hs) → unhexlify hs = Raise e →
  try_into_pulse (JObj m) = Raise e.
Proof.
  intros Hr Hjr Hrb Hjs Hsb.
  by rewrite (try_into_pulse_fields m r hr hs), Hrb, Hsb.
Qed.

Lemma try_into_pulse_signature_first_witness :
  try_into_pulse
    (JObj (<["round" := JInt 1]> (<["randomness" := JStr "00"]>
          (<["signature" := JStr "0"]> ∅))))
  = Raise BinasciiError.
Proof.
  by apply (try_into_pulse_signature_first _ (JInt 1) "00" [x00] "0").
Defined.
