(* ===== verification/Payload.v ===== *)
(** PayloadEncoder: [encode_pulse] and [encode_pulses_payload] of
    src/ocw.py (lines 66-90), the byte string that is both the wire format
    and the preimage of the signature.

    The encoders are written as the code writes them: an accumulator
    [encoded] extended field by field, the loop of [encode_pulses_payload]
    as a fold that repeats the body of [encode_pulse] inline.  The
    specification side is the layout of section 4.4 and a decoder of the
    chain's format ([decode_pulses_payload]).  The theorems: the inlined
    loop equals [encode_pulse] mapped over the pulses, the layout and the
    length of the output, exactly when encoding succeeds and which exception
    it raises otherwise, the round trip through the decoder, and
    injectivity on well-formed payloads. *)

From Stdlib Require Import Strings.Byte.
From stdpp Require Import gmap.
From S2P Require Import Prelude PyBytes Compact Pulse.

(** ** Data *)

(** The dictionary [submit_new_pulses] passes to the encoder. *)
Record PulsesPayload : Type := mkPayload {
  block_number : Z;
  pulses : list Pulse;
  public : bytes;
}.

(** ** Operations *)

(** [v.to_bytes(n, 'little')] on a JSON value: defined on [int] and on
    [bool] (a subclass of [int]); any other value has no such method. *)
Definition py_to_bytes (v : json) (n : nat) : res bytes :=
  match v with
  | JInt z => to_bytes n z
  | JBool b => to_bytes n (if b then 1 else 0)
  | _ => raise AttributeError
  end.

(** [len(bs)]. *)
Definition py_len (bs : bytes) : Z := Z.of_nat (length bs).

Definition encode_pulse (pulse : Pulse) : res bytes :=
  encoded ← py_to_bytes (round pulse) 8;
  c ← encode_compact_u32 (py_len (randomness pulse));
  let encoded := encoded ++ c in
  let encoded := encoded ++ randomness pulse in
  c ← encode_compact_u32 (py_len (signature pulse));
  let encoded := encoded ++ c in
  let encoded := encoded ++ signature pulse in
  Ok encoded.

(** The body of the [for p in pulses_list] loop. *)
Definition encode_pulses_payload_step (encoded : bytes) (p : Pulse) : res bytes :=
  r ← py_to_bytes (round p) 8;
  let encoded := encoded ++ r in
  c ← encode_compact_u32 (py_len (randomness p));
  let encoded := encoded ++ c in
  let encoded := encoded ++ randomness p in
  c ← encode_compact_u32 (py_len (signature p));
  let encoded := encoded ++ c in
  let encoded := encoded ++ signature p in
  Ok encoded.

Definition encode_pulses_payload (pulses_payload : PulsesPayload) : res bytes :=
  encoded ← to_bytes 4 (block_number pulses_payload);
  let pulses_list := pulses pulses_payload in
  c ← encode_compact_u32 (Z.of_nat (length pulses_list));
  let encoded := encoded ++ c in
  encoded ← res_foldl encode_pulses_payload_step encoded pulses_list;
  let encoded := encoded ++ [x01] in
  let encoded := encoded ++ public pulses_payload in
  Ok encoded.

(** ** Specification: the layout and the chain's decoder *)

(** A pulse the chain's types can hold: a 64-bit integer round and byte
    strings whose length prefixes stay within the first three tiers. *)
Definition pulse_wf (p : Pulse) : Prop :=
  (∃ r, round p = JInt r ∧ 0 ≤ r < 2 ^ 64) ∧
  py_len (randomness p) < 2 ^ 30 ∧ py_len (signature p) < 2 ^ 30.

Definition payload_wf (pp : PulsesPayload) : Prop :=
  0 ≤ block_number pp < 2 ^ 32 ∧
  Forall pulse_wf (pulses pp) ∧
  Z.of_nat (length (pulses pp)) < 2 ^ 30 ∧
  length (public pp) = 32%nat.

Definition read_bytes (n : nat) (bs : bytes) : option (bytes * bytes) :=
  if decide (n ≤ length bs)%nat then Some (take n bs, drop n bs) else None.

(** A byte vector: compact length, then the bytes. *)
Definition decode_vec (bs : bytes) : option (bytes * bytes) :=
  '(n, bs) ← scale_decode_compact_u32 bs;
  read_bytes (Z.to_nat n) bs.

Definition decode_pulse (bs : bytes) : option (Pulse * bytes) :=
  '(r, bs) ← read_le 8 bs;
  '(rnd, bs) ← decode_vec bs;
  '(sig, bs) ← decode_vec bs;
  Some (mkPulse (JInt r) rnd sig, bs).

Fixpoint decode_pulses (n : nat) (bs : bytes) : option (list Pulse * bytes) :=
  match n with
  | O => Some ([], bs)
  | S n =>
      '(p, bs) ← decode_pulse bs;
      '(ps, bs) ← decode_pulses n bs;
      Some (p :: ps, bs)
  end.

(** The whole payload: block number, pulses, the signer tagged as Sr25519
    with its 32-byte key, and nothing after it. *)
Definition decode_pulses_payload (bs : bytes) : option PulsesPayload :=
  '(bn, bs) ← read_le 4 bs;
  '(n, bs) ← scale_decode_compact_u32 bs;
  '(ps, bs) ← decode_pulses (Z.to_nat n) bs;
  '(tag, bs) ← read_le 1 bs;
  if decide (tag = 1) then
    '(pk, bs) ← read_bytes 32 bs;
    if decide (bs = []) then Some (mkPayload bn ps pk) else None
  else None.

(** ** Lemmas: the encoders *)

(** One iteration of the loop appends the encoding of the pulse. *)
Lemma encode_pulses_payload_step_eq encoded p :
  encode_pulses_payload_step encoded p
  = e ← encode_pulse p; Ok (encoded ++ e).
Proof.
  unfold encode_pulses_payload_step, encode_pulse.
  destruct (py_to_bytes _ _); res_simpl; [|done].
  destruct (encode_compact_u32 (py_len (randomness p))); res_simpl; [|done].
  destruct (encode_compact_u32 (py_len (signature p))); res_simpl; [|done].
  by rewrite !app_assoc.
Qed.

Lemma encode_pulses_payload_loop encoded ps :
  res_foldl encode_pulses_payload_step encoded ps
  = es ← mapM encode_pulse ps; Ok (encoded ++ concat es).
Proof.
  rewrite <-res_foldl_append. revert encoded.
  induction ps as [|p ps IH]; intros encoded; [done|]. cbn [res_foldl].
  rewrite encode_pulses_payload_step_eq.
  destruct (encode_pulse p); res_simpl; auto.
Qed.

Lemma py_to_bytes_Ok v n bs :
  py_to_bytes v n = Ok bs →
  ∃ z, (v = JInt z ∨ ∃ b : bool, v = JBool b ∧ z = if b then 1 else 0) ∧
       0 ≤ z < 256 ^ Z.of_nat n ∧ bs = le_bytes n z.
Proof.
  destruct v; cbn; try done.
  - intros (? & -> & _)%to_bytes_Ok_inv. eexists; split; [right|]; eauto.
  - intros (? & -> & _)%to_bytes_Ok_inv. eexists; split; [left|]; eauto.
Qed.

Lemma py_len_nonneg bs : 0 ≤ py_len bs.
Proof. unfold py_len. lia. Qed.
#[export] Hint Resolve py_len_nonneg : ocw.

(** The layout of one encoded pulse. *)
Lemma encode_pulse_wf p :
  pulse_wf p →
  ∃ r c1 c2,
    round p = JInt r ∧
    encode_compact_u32 (py_len (randomness p)) = Ok c1 ∧
    encode_compact_u32 (py_len (signature p)) = Ok c2 ∧
    encode_pulse p
    = Ok (le_bytes 8 r ++ c1 ++ randomness p ++ c2 ++ signature p).
Proof.
  intros ((r & Hr & Hr64) & H1 & H2).
  pose proof (py_len_nonneg (randomness p)). pose proof (py_len_nonneg (signature p)).
  exists r. do 2 eexists. unfold encode_pulse. rewrite Hr. cbn [py_to_bytes].
  rewrite to_bytes_Ok by (cbn; lia).
  rewrite !encode_compact_u32_Ok by lia. res_simpl.
  repeat split; try done. by rewrite <-!app_assoc.
Qed.

(** The function as a composition: block number, count, the encoded
    pulses, the signer. *)
Lemma encode_pulses_payload_unfold pp :
  encode_pulses_payload pp
  = b ← to_bytes 4 (block_number pp);
    c ← encode_compact_u32 (Z.of_nat (length (pulses pp)));
    es ← mapM encode_pulse (pulses pp);
    Ok (b ++ c ++ concat es ++ [x01] ++ public pp).
Proof.
  unfold encode_pulses_payload.
  destruct (to_bytes 4 _); res_simpl; [|done].
  destruct (encode_compact_u32 _); res_simpl; [|done].
  rewrite encode_pulses_payload_loop.
  destruct (mapM encode_pulse _); res_simpl; [|done].
  by rewrite <-!app_assoc.
Qed.

Lemma mapM_encode_pulse_wf ps :
  Forall pulse_wf ps → ∃ es, mapM encode_pulse ps = Ok es.
Proof.
  induction 1 as [|p ps Hp _ [es IH]]; [by eexists|].
  destruct (encode_pulse_wf p Hp) as (?&?&?&_&_&_&E).
  cbn [mapM]. rewrite E, IH. by eexists.
Qed.

Lemma encode_pulses_payload_wf pp :
  payload_wf pp →
  ∃ c es,
    encode_compact_u32 (Z.of_nat (length (pulses pp))) = Ok c ∧
    mapM encode_pulse (pulses pp) = Ok es ∧
    encode_pulses_payload pp
    = Ok (le_bytes 4 (block_number pp) ++ c ++ concat es ++ [x01] ++ public pp).
Proof.
  intros (Hb & Hps & Hn & Hpk).
  destruct (mapM_encode_pulse_wf _ Hps) as [es Hes].
  eexists _, es. rewrite encode_pulses_payload_unfold.
  rewrite to_bytes_Ok by (cbn; lia).
  rewrite encode_compact_u32_Ok by lia. by rewrite Hes.
Qed.

(** ** Lemmas: the decoder reads back what the encoders emit *)

Lemma read_bytes_app data rest :
  read_bytes (length data) (data ++ rest) = Some (data, rest).
Proof.
  unfold read_bytes. rewrite decide_True by (rewrite length_app; lia).
  by rewrite take_app_length, drop_app_length.
Qed.

Lemma decode_vec_encode data c rest :
  py_len data < 2 ^ 30 → encode_compact_u32 (py_len data) = Ok c →
  decode_vec (c ++ data ++ rest) = Some (data, rest).
Proof.
  intros Hl Hc. unfold decode_vec.
  rewrite (scale_decode_encode_compact _ _ _ (conj (py_len_nonneg _) Hl) Hc).
  cbn [mbind option_bind]. unfold py_len. rewrite Nat2Z.id.
  apply read_bytes_app.
Qed.

Lemma decode_encode_pulse p e rest :
  pulse_wf p → encode_pulse p = Ok e →
  decode_pulse (e ++ rest) = Some (p, rest).
Proof.
  intros Hp He. pose proof Hp as ((r0 & Hr0 & Hr) & H1 & H2).
  destruct (encode_pulse_wf p Hp) as (r & c1 & c2 & Hpr & Hc1 & Hc2 & E).
  assert (r0 = r) as -> by congruence.
  rewrite He in E. res_simpl. unfold decode_pulse.
  rewrite <-!app_assoc, read_le_app by (cbn; lia). cbn [mbind option_bind].
  rewrite decode_vec_encode by done. cbn [mbind option_bind].
  rewrite decode_vec_encode by done. cbn [mbind option_bind].
  destruct p; cbn in *; by subst.
Qed.

Lemma decode_encode_pulses ps es rest :
  Forall pulse_wf ps → mapM encode_pulse ps = Ok es →
  decode_pulses (length ps) (concat es ++ rest) = Some (ps, rest).
Proof.
  intros Hwf. revert es. induction Hwf as [|p ps Hp _ IH]; intros es.
  - by intros [= <-].
  - cbn [mapM]. destruct (encode_pulse p) as [e|] eqn:He; res_simpl; [|done].
    destruct (mapM encode_pulse ps) as [es'|]; res_simpl; [|done].
    intros [= <-]. cbn [length decode_pulses concat].
    rewrite <-app_assoc, (decode_encode_pulse p e) by done.
    cbn [mbind option_bind]. by rewrite IH.
Qed.

Lemma decode_encode_payload pp bs :
  payload_wf pp → encode_pulses_payload pp = Ok bs →
  decode_pulses_payload bs = Some pp.
Proof.
  intros Hwf Hbs. pose proof Hwf as (Hb & Hps & Hn & Hpk).
  destruct (encode_pulses_payload_wf pp Hwf) as (c & es & Hc & Hes & E).
  rewrite Hbs in E. res_simpl. unfold decode_pulses_payload.
  rewrite read_le_app by (cbn; lia). cbn [mbind option_bind].
  rewrite (scale_decode_encode_compact (Z.of_nat (length (pulses pp))) c)
    by (done || lia).
  cbn [mbind option_bind]. rewrite Nat2Z.id.
  rewrite (decode_encode_pulses _ es) by done. cbn [mbind option_bind].
  change ([x01] ++ public pp) with (le_bytes 1 1 ++ public pp).
  rewrite read_le_app by (cbn; lia). cbn [mbind option_bind].
  rewrite decide_True by done.
  rewrite <-(app_nil_r (public pp)), <-Hpk, read_bytes_app.
  cbn [mbind option_bind]. rewrite decide_True by done. by destruct pp.
Qed.

(** ** Lemmas: lengths and failures *)

(** The number of bytes one pulse takes in the payload. *)
Definition pulse_encoded_length (p : Pulse) : nat :=
  (8 + compact_width (py_len (randomness p)) + length (randomness p)
   + compact_width (py_len (signature p)) + length (signature p))%nat.

Lemma py_to_bytes_length v n bs : py_to_bytes v n = Ok bs → length bs = n.
Proof. intros (z & _ & _ & ->)%py_to_bytes_Ok. apply length_le_bytes. Qed.

Lemma py_to_bytes_Raise v n e :
  py_to_bytes v n = Raise e → e = OverflowError ∨ e = AttributeError.
Proof.
  destruct v; cbn; try (intros [= <-]; by right);
    intros [-> _]%to_bytes_Raise_inv; by left.
Qed.

Lemma encode_compact_u32_Raise v e :
  encode_compact_u32 v = Raise e → e = OverflowError.
Proof.
  unfold encode_compact_u32.
  case_zbool; cbn zeta; by intros [-> _]%to_bytes_Raise_inv.
Qed.

Lemma length_encode_pulse p e :
  encode_pulse p = Ok e → length e = pulse_encoded_length p.
Proof.
  unfold encode_pulse, pulse_encoded_length.
  intros (r & Hr%py_to_bytes_length & H)%res_bind_Ok.
  apply res_bind_Ok in H as (c1 & Hc1%length_encode_compact_u32 & H).
  apply res_bind_Ok in H as (c2 & Hc2%length_encode_compact_u32 & H).
  res_simpl. rewrite !length_app. lia.
Qed.

Lemma encode_pulse_Raise p e :
  encode_pulse p = Raise e → e = OverflowError ∨ e = AttributeError.
Proof.
  unfold encode_pulse.
  intros [?%py_to_bytes_Raise|(? & _ & H)]%res_bind_Raise; [done|].
  apply res_bind_Raise in H as [?%encode_compact_u32_Raise|(? & _ & H)]; [by left|].
  apply res_bind_Raise in H as [?%encode_compact_u32_Raise|(? & _ & H)]; [by left|].
  done.
Qed.

Lemma length_concat_encode_pulse ps es :
  mapM encode_pulse ps = Ok es →
  length (concat es) = sum_list (pulse_encoded_length <$> ps).
Proof.
  intros H%res_mapM_Ok_Forall2.
  induction H as [|p e ps es He _ IH]; [done|].
  cbn [concat]. rewrite fmap_cons, length_app, IH, (length_encode_pulse p e He).
  done.
Qed.

(** Sample values used by the witnesses. *)
Definition sample_pulse (r : Z) : Pulse :=
  mkPulse (JInt r) (replicate 32 xab) (replicate 48 xcd).
Definition sample_payload : PulsesPayload :=
  mkPayload 7 [sample_pulse 10; sample_pulse 11] (replicate 32 x01).

(** The bytes of [sample_payload]: 4 + 1 + 2 * (8 + 1 + 32 + 1 + 48) + 1 + 32. *)
Definition sample_encoding : bytes :=
  Eval vm_compute in
    match encode_pulses_payload sample_payload with Ok bs => bs | Raise _ => [] end.

Lemma sample_pulse_wf r : 0 ≤ r < 2 ^ 64 → pulse_wf (sample_pulse r).
Proof. intros. split; [by exists r|]. by split. Qed.

Lemma sample_payload_wf : payload_wf sample_payload.
Proof.
  split; [done|]. split; [|done].
  repeat constructor; by apply sample_pulse_wf.
Qed.

(** ** Theorems *)

(** C8 (layout): [encode_pulses_payload] returns bytes exactly when the block
    number fits four bytes, the count of pulses has a compact encoding and
    every pulse is encoded by [encode_pulse]; the bytes are then the block
    number, the count, the encoded pulses in order, the byte 0x01 and the
    public key.  The loop written inline in the function and [encode_pulse]
    produce the same bytes. *)
Theorem encode_pulses_payload_spec pp bs :
  encode_pulses_payload pp = Ok bs ↔
  ∃ b c es,
    to_bytes 4 (block_number pp) = Ok b ∧
    encode_compact_u32 (Z.of_nat (length (pulses pp))) = Ok c ∧
    Forall2 (λ p e, encode_pulse p = Ok e) (pulses pp) es ∧
    bs = b ++ c ++ concat es ++ [x01] ++ public pp.
Proof.
  rewrite encode_pulses_payload_unfold. split.
  - intros (b & Hb & H)%res_bind_Ok.
    apply res_bind_Ok in H as (c & Hc & H).
    apply res_bind_Ok in H as (es & Hes%res_mapM_Ok_Forall2 & H).
    res_simpl. by exists b, c, es.
  - intros (b & c & es & -> & -> & Hes%res_mapM_Ok_Forall2 & ->).
    by rewrite Hes.
Qed.

(** C2 (round trip): a well-formed payload is encoded, and the chain's
    decoder reads the bytes back as the same payload, consuming all of
    them. *)
Theorem payload_roundtrip pp :
  payload_wf pp →
  ∃ bs, encode_pulses_payload pp = Ok bs ∧ decode_pulses_payload bs = Some pp.
Proof.
  intros Hwf. destruct (encode_pulses_payload_wf pp Hwf) as (c & es & _ & _ & E).
  eexists. split; [exact E|]. by apply decode_encode_payload.
Qed.

Lemma payload_roundtrip_witness :
  ∃ bs, encode_pulses_payload sample_payload = Ok bs ∧
        decode_pulses_payload bs = Some sample_payload.
Proof. apply payload_roundtrip, sample_payload_wf. Defined.

(** C28 (injective): two well-formed payloads with the same encoding are
    equal; changing the block number, a round, a randomness, a signature or
    the public key changes the bytes that are signed. *)
Theorem encode_pulses_payload_inj pp1 pp2 :
  payload_wf pp1 → payload_wf pp2 →
  encode_pulses_payload pp1 = encode_pulses_payload pp2 → pp1 = pp2.
Proof.
  intros H1 H2 E.
  destruct (encode_pulses_payload_wf pp1 H1) as (c & es & _ & _ & E1).
  pose proof (decode_encode_payload pp1 _ H1 E1) as D1.
  rewrite E in E1. pose proof (decode_encode_payload pp2 _ H2 E1) as D2.
  congruence.
Qed.

Lemma encode_pulses_payload_inj_witness : sample_payload = sample_payload.
Proof.
  apply encode_pulses_payload_inj;
    [apply sample_payload_wf | apply sample_payload_wf | reflexivity].
Defined.

(** C32 (length): the encoding of a payload has 4 bytes of block number, the
    compact count, for every pulse 8 bytes of round and its two
    length-prefixed byte strings, one tag byte and the public key. *)
Theorem encode_pulses_payload_length pp bs :
  encode_pulses_payload pp = Ok bs →
  length bs
  = (4 + compact_width (Z.of_nat (length (pulses pp)))
     + sum_list (pulse_encoded_length <$> pulses pp)
     + 1 + length (public pp))%nat.
Proof.
  rewrite encode_pulses_payload_unfold.
  intros (b & (_ & _ & Hb)%to_bytes_Ok_inv & H)%res_bind_Ok.
  apply res_bind_Ok in H as (c & Hc%length_encode_compact_u32 & H).
  apply res_bind_Ok in H as (es & Hes%length_concat_encode_pulse & H).
  res_simpl. rewrite !length_app. cbn [length]. lia.
Qed.

Lemma encode_pulses_payload_length_witness :
  length sample_encoding
  = (4 + compact_width (Z.of_nat (length (pulses sample_payload)))
     + sum_list (pulse_encoded_length <$> pulses sample_payload)
     + 1 + length (public sample_payload))%nat.
Proof. apply encode_pulses_payload_length. by vm_compute. Defined.

(** Failures: when encoding a payload fails, the exception is
    [OverflowError] (a number that does not fit its field) or
    [AttributeError] (a round that is not an integer). *)
Theorem encode_pulses_payload_Raise pp e :
  encode_pulses_payload pp = Raise e →
  e = OverflowError ∨ e = AttributeError.
Proof.
  rewrite encode_pulses_payload_unfold.
  intros [[-> _]%to_bytes_Raise_inv|(? & _ & H)]%res_bind_Raise; [by left|].
  apply res_bind_Raise in H as [->%encode_compact_u32_Raise|(? & _ & H)]; [by left|].
  apply res_bind_Raise in H as [(p & _ & H)%res_mapM_Raise|(? & _ & H)]; [|done].
  by apply encode_pulse_Raise in H.
Qed.

Lemma encode_pulses_payload_Raise_witness :
  AttributeError = OverflowError ∨ AttributeError = AttributeError.
Proof.
  apply (encode_pulses_payload_Raise
           (mkPayload 1 [mkPulse (JStr "12") [] []] [])).
  reflexivity.
Defined.

(** C33 (validated pulse): a pulse that came out of [try_into_pulse] with an
    integer round of 64 bits and a signature shorter than 64 bytes is encoded
    as its round on 8 bytes, the byte 0x80 (the compact length 32), the
    randomness, one length byte and the signature. *)
Theorem encode_validated_pulse resp p r :
  try_into_pulse resp = Ok p →
  round p = JInt r → 0 ≤ r < 2 ^ 64 → py_len (signature p) < 64 →
  encode_pulse p
  = Ok (le_bytes 8 r ++ [x80] ++ randomness p
        ++ [byte_of_Z (4 * py_len (signature p))] ++ signature p).
Proof.
  intros (?&?&?&_&_&_&_&_&_&Hl)%try_into_pulse_inv Hr Hr64 Hs.
  unfold encode_pulse. rewrite Hr. cbn [py_to_bytes].
  rewrite to_bytes_Ok by (cbn; lia). unfold py_len in *. rewrite Hl.
  change (encode_compact_u32 (Z.of_nat 32)) with (@Ok bytes [x80]).
  rewrite encode_compact_u32_Ok by lia. unfold compact_width, compact_tag.
  rewrite (proj2 (Z.ltb_lt _ 64)) by done. cbn [le_bytes]. rewrite Z.add_0_r.
  res_simpl. by rewrite <-!app_assoc.
Qed.

Lemma encode_validated_pulse_witness :
  encode_pulse (sample_pulse 5)
  = Ok (le_bytes 8 5 ++ [x80] ++ randomness (sample_pulse 5)
        ++ [byte_of_Z (4 * py_len (signature (sample_pulse 5)))]
        ++ signature (sample_pulse 5)).
Proof.
  apply (encode_validated_pulse
           (pulse_response (JInt 5) (replicate 32 xab) (replicate 48 xcd)));
    [by vm_compute | done | done | done].
Defined.
