(* ===== verification/World.v ===== *)
(** The outside world of src/ocw.py and the monad its effectful functions
    run in.

    The program talks to four collaborators: the clock ([time.time]), the
    beacon over HTTP ([requests.get] and [response.json]), the chain node
    ([substrate.query], [compose_call], [create_unsigned_extrinsic],
    [submit_extrinsic]) and the key pair ([keypair.sign]); it also prints.
    Every such call is an [event] that records the call and its answer.  The
    state of a run is the list of events so far, oldest first; the answers
    come from an environment [Env], a record of oracles that see the whole
    history, so that any deterministic behaviour of the collaborators is an
    instance.  A computation [M A] maps a history to a result of the error
    monad and the extended history: an exception keeps the events that
    happened before it.

    Time is counted in milliseconds as an integer: [time.time()] seconds
    times 1000; floating-point rounding is not modelled. *)

From Stdlib Require Import Strings.Byte.
From stdpp Require Import gmap.
From S2P Require Import Prelude PyBytes Pulse.

(** ** Configuration (lines 6-16 of the source) *)

Definition NODE_URL : string := "ws://127.0.0.1:9945".
Definition CHAIN_HASH : string :=
  "52db9ba70e0cc0f6eaf7803dd07447a1f5477735fd3f661792ba94600c84e971".
Definition DRAND_ENDPOINTS : list string := [
  "https://api.drand.sh";
  "https://api2.drand.sh";
  "https://api3.drand.sh";
  "https://drand.cloudflare.com";
  "https://api.drand.secureweb3.com:6875"
].
Definition HTTP_FETCH_TIMEOUT : Z := 10000.
Definition MAX_PULSES_TO_FETCH : Z := 50.

(** ** Messages exchanged with the collaborators *)

(** What [requests.get(uri, timeout)] followed by [response.json()] can
    give: a [RequestException], or a response with its status code and its
    body when the body is JSON ([None]: [response.json()] raises). *)
Inductive http_reply : Type :=
| HttpError
| HttpResponse (status : Z) (body : option json).

(** One entry of [pulses_for_call]. *)
Record PulseForCall : Type := mkPulseForCall {
  pc_round : json;
  pc_randomness : string;
  pc_signature : string;
}.

(** The parameters of the [write_pulse] call: [pulses_payload_for_call] and
    [signature_for_call], both tagged [Sr25519]. *)
Record Call : Type := mkCall {
  call_module : string;
  call_function : string;
  call_block_number : Z;
  call_pulses : list PulseForCall;
  call_public_sr25519 : string;
  call_signature_sr25519 : string;
}.

(** The receipt of [submit_extrinsic]. *)
Record Receipt : Type := mkReceipt {
  is_success : bool;
  error_message : string;
}.

(** A block notification: the header's number. *)
Record Header : Type := mkHeader { number : Z }.

Inductive event : Type :=
| EvTime (t : Z)
| EvHttpGet (uri : string) (timeout : Z) (reply : http_reply)
| EvQuery (module storage : string) (value : res (option Z))
| EvSign (message sig : bytes)
| EvSubmit (call : Call) (receipt : res Receipt)
| EvPrint (line : string).

Abbreviation trace := (list event).

(** ** The environment *)

Class Env : Type := {
  env_time : trace → Z;
  env_http : trace → string → Z → http_reply;
  env_query : trace → string → string → res (option Z);
  env_public_key : bytes;
  env_sign : trace → bytes → bytes;
  env_submit : trace → Call → res Receipt;
}.

(** ** The monad *)

Definition M (A : Type) : Type := trace → res A * trace.

#[export] Instance M_ret : MRet M := λ A a tr, (Ok a, tr).
#[export] Instance M_bind : MBind M := λ A B f m tr,
  match m tr with
  | (Ok a, tr') => f a tr'
  | (Raise e, tr') => (Raise e, tr')
  end.

(** A pure computation that may raise. *)
Definition lift {A} (r : res A) : M A := λ tr, (r, tr).

(** Perform one event. *)
Definition emit (ev : event) : M unit := λ tr, (Ok tt, tr ++ [ev]).

(** [mapM_M f l]: [for x in l: ys.append(f(x))]. *)
Fixpoint mapM_M {A B} (f : A → M B) (l : list A) : M (list B) :=
  match l with
  | [] => mret []
  | x :: l => y ← f x; ys ← mapM_M f l; mret (y :: ys)
  end.

(** The events a computation adds to a history. *)
Definition events_of {A} (m : M A) (tr : trace) : trace :=
  drop (length tr) (m tr).2.

(** ** Primitive operations *)

Section primitives.
Context `{env : Env}.

(** [time.time()], in milliseconds. *)
Definition time_time : M Z := λ tr,
  let t := env_time tr in (Ok t, tr ++ [EvTime t]).

(** [requests.get(uri, timeout=...)] with the [try]/[except
    RequestException] around it turned into a value. *)
Definition requests_get (uri : string) (timeout : Z) : M http_reply := λ tr,
  let r := env_http tr uri timeout in (Ok r, tr ++ [EvHttpGet uri timeout r]).

(** [substrate.query(module=..., storage_function=...).value]. *)
Definition substrate_query (module storage : string) : M (option Z) := λ tr,
  let v := env_query tr module storage in (v, tr ++ [EvQuery module storage v]).

(** [keypair.public_key]. *)
Definition keypair_public_key : bytes := env_public_key.

(** [keypair.sign(message)], total on bytes: an exception of the signing
    library is not modelled. *)
Definition keypair_sign (message : bytes) : M bytes := λ tr,
  let s := env_sign tr message in (Ok s, tr ++ [EvSign message s]).

(** [substrate.compose_call], [substrate.create_unsigned_extrinsic] and
    [substrate.submit_extrinsic(..., wait_for_inclusion=True)]: one exchange
    with the node, answered by a receipt or an exception.  An exception of
    any of the three calls is the answer of the exchange, so the event
    records a call that was handed to the library, not one that reached the
    chain. *)
Definition substrate_submit (call : Call) : M Receipt := λ tr,
  let r := env_submit tr call in (r, tr ++ [EvSubmit call r]).

(** [print(line)]. *)
Definition print (line : string) : M unit := emit (EvPrint line).

End primitives.

(** ** Observations on histories *)

(** The URIs requested, in order. *)
Definition requested (tr : trace) : list string :=
  omap (λ ev, match ev with EvHttpGet uri _ _ => Some uri | _ => None end) tr.

(** The calls handed to the node, in order, whatever the answer. *)
Definition submitted (tr : trace) : list Call :=
  omap (λ ev, match ev with EvSubmit c _ => Some c | _ => None end) tr.

(** The lines printed, in order. *)
Definition printed (tr : trace) : list string :=
  omap (λ ev, match ev with EvPrint l => Some l | _ => None end) tr.

(** The messages signed with their signatures, in order. *)
Definition signatures (tr : trace) : list (bytes * bytes) :=
  omap (λ ev, match ev with EvSign m s => Some (m, s) | _ => None end) tr.

(** Events that involve neither the key pair, nor a submission, nor the
    console: clock readings, requests to the beacon and storage queries. *)
Definition quiet (tr : trace) : Prop :=
  submitted tr = [] ∧ signatures tr = [] ∧ printed tr = [].

(** ** Lemmas *)

Lemma M_bind_unfold {A B} (m : M A) (f : A → M B) tr :
  (m ≫= f) tr
  = match m tr with (Ok a, tr') => f a tr' | (Raise e, tr') => (Raise e, tr') end.
Proof. done. Qed.

Lemma M_ret_unfold {A} (a : A) tr : (mret a : M A) tr = (Ok a, tr).
Proof. done. Qed.

Lemma events_of_eq {A} (m : M A) tr evs :
  (m tr).2 = tr ++ evs → events_of m tr = evs.
Proof. intros E. unfold events_of. by rewrite E, drop_app_length. Qed.

Lemma exec_events {A} (m : M A) tr r evs :
  m tr = (r, tr ++ evs) → events_of m tr = evs ∧ (m tr).1 = r.
Proof. intros E. split; [apply events_of_eq|]; by rewrite E. Qed.

(** A computation only ever extends the history. *)
Definition extends {A} (m : M A) : Prop := ∀ tr, tr `prefix_of` (m tr).2.

Lemma extends_ret {A} (a : A) : extends (mret a : M A).
Proof. intros tr. done. Qed.

Lemma extends_lift {A} (r : res A) : extends (lift r).
Proof. intros tr. done. Qed.

Lemma extends_emit ev : extends (emit ev).
Proof. intros tr. by apply prefix_app_r. Qed.

Lemma extends_bind {A B} (m : M A) (f : A → M B) :
  extends m → (∀ a, extends (f a)) → extends (m ≫= f).
Proof.
  intros Hm Hf tr. rewrite M_bind_unfold. specialize (Hm tr).
  destruct (m tr) as [[a|e] tr']; [|done].
  etrans; [exact Hm|apply Hf].
Qed.

Lemma extends_mapM_M {A B} (f : A → M B) l :
  (∀ a, extends (f a)) → extends (mapM_M f l).
Proof.
  intros Hf. induction l as [|x l IH]; [apply extends_ret|].
  cbn [mapM_M]. apply extends_bind; [done|]. intros y.
  apply extends_bind; [done|]. intros ys. apply extends_ret.
Qed.

Lemma mapM_M_app {A B} (f : A → M B) l1 l2 tr :
  mapM_M f (l1 ++ l2) tr
  = match mapM_M f l1 tr with
    | (Ok ys1, tr1) =>
        match mapM_M f l2 tr1 with
        | (Ok ys2, tr2) => (Ok (ys1 ++ ys2), tr2)
        | (Raise e, tr2) => (Raise e, tr2)
        end
    | (Raise e, tr1) => (Raise e, tr1)
    end.
Proof.
  revert tr. induction l1 as [|x l1 IH]; intros tr.
  { cbn [app mapM_M]. rewrite M_ret_unfold. by destruct (mapM_M f l2 tr) as [[]]. }
  cbn [app mapM_M]. rewrite !M_bind_unfold.
  destruct (f x tr) as [[y|e] tr1]; [|done].
  rewrite !M_bind_unfold, IH.
  destruct (mapM_M f l1 tr1) as [[ys1|e] tr2]; [|done].
  rewrite M_ret_unfold. by destruct (mapM_M f l2 tr2) as [[ys2|e] tr3].
Qed.

Section primitive_lemmas.
Context `{env : Env}.

Lemma extends_time_time : extends time_time.
Proof. intros tr. by apply prefix_app_r. Qed.
Lemma extends_requests_get uri t : extends (requests_get uri t).
Proof. intros tr. by apply prefix_app_r. Qed.
Lemma extends_substrate_query m s : extends (substrate_query m s).
Proof. intros tr. by apply prefix_app_r. Qed.
Lemma extends_keypair_sign msg : extends (keypair_sign msg).
Proof. intros tr. by apply prefix_app_r. Qed.
Lemma extends_substrate_submit c : extends (substrate_submit c).
Proof. intros tr. by apply prefix_app_r. Qed.
Lemma extends_print l : extends (print l).
Proof. apply extends_emit. Qed.

End primitive_lemmas.

#[export] Hint Resolve extends_ret extends_lift extends_emit extends_bind
  extends_mapM_M extends_time_time extends_requests_get
  extends_substrate_query extends_keypair_sign extends_substrate_submit
  extends_print : ocw.

Lemma requested_app tr1 tr2 : requested (tr1 ++ tr2) = requested tr1 ++ requested tr2.
Proof. apply omap_app. Qed.
Lemma submitted_app tr1 tr2 : submitted (tr1 ++ tr2) = submitted tr1 ++ submitted tr2.
Proof. apply omap_app. Qed.
Lemma printed_app tr1 tr2 : printed (tr1 ++ tr2) = printed tr1 ++ printed tr2.
Proof. apply omap_app. Qed.

Lemma signatures_app tr1 tr2 :
  signatures (tr1 ++ tr2) = signatures tr1 ++ signatures tr2.
Proof. apply omap_app. Qed.

#[export] Hint Rewrite requested_app submitted_app printed_app signatures_app : ocw.

Lemma quiet_nil : quiet [].
Proof. done. Qed.
Lemma quiet_app tr1 tr2 : quiet tr1 → quiet tr2 → quiet (tr1 ++ tr2).
Proof.
  intros (E1 & E2 & E3) (F1 & F2 & F3). unfold quiet.
  autorewrite with ocw. by rewrite E1, E2, E3, F1, F2, F3.
Qed.
Lemma quiet_time t tr : quiet tr → quiet (EvTime t :: tr).
Proof. done. Qed.
Lemma quiet_http uri timeout reply tr :
  quiet tr → quiet (EvHttpGet uri timeout reply :: tr).
Proof. done. Qed.
Lemma quiet_query m s v tr : quiet tr → quiet (EvQuery m s v :: tr).
Proof. done. Qed.

#[export] Hint Resolve quiet_nil quiet_app quiet_time quiet_http quiet_query : ocw.

(** Observations of a history that ends with quiet events. *)
Lemma submitted_quiet tr1 tr2 : quiet tr2 → submitted (tr1 ++ tr2) = submitted tr1.
Proof. intros (E & _). by rewrite submitted_app, E, app_nil_r. Qed.
Lemma signatures_quiet tr1 tr2 : quiet tr2 → signatures (tr1 ++ tr2) = signatures tr1.
Proof. intros (_ & E & _). by rewrite signatures_app, E, app_nil_r. Qed.
Lemma printed_quiet tr1 tr2 : quiet tr2 → printed (tr1 ++ tr2) = printed tr1.
Proof. intros (_ & _ & E). by rewrite printed_app, E, app_nil_r. Qed.

(** Observations of a history that starts with quiet events. *)
Lemma submitted_quiet_l tr1 tr2 : quiet tr1 → submitted (tr1 ++ tr2) = submitted tr2.
Proof. intros (E & _). by rewrite submitted_app, E. Qed.
Lemma signatures_quiet_l tr1 tr2 : quiet tr1 → signatures (tr1 ++ tr2) = signatures tr2.
Proof. intros (_ & E & _). by rewrite signatures_app, E. Qed.
Lemma printed_quiet_l tr1 tr2 : quiet tr1 → printed (tr1 ++ tr2) = printed tr2.
Proof. intros (_ & _ & E). by rewrite printed_app, E. Qed.

(** ** A scripted environment for examples

    The beacon answers by URI, the clock advances [tick] milliseconds per
    request sent, the two storage items hold fixed values, signing is the
    identity on the message and the node answers every call with the same
    receipt. *)
Definition scripted_env (tick : Z) (http : string → http_reply)
    (next_unsigned_at last_stored_round : option Z)
    (receipt : res Receipt) : Env := {|
  env_time tr := tick * Z.of_nat (length (requested tr));
  env_http _ uri _ := http uri;
  env_query _ _ storage :=
    if decide (storage = "NextUnsignedAt") then Ok next_unsigned_at
    else Ok last_stored_round;
  env_public_key := replicate 32 x01;
  env_sign _ message := message;
  env_submit _ _ := receipt;
|}.
