(* ===== verification/Fetcher.v ===== *)
(** EndpointFetcher: [fetch_from_any_endpoint], [fetch_drand_by_round] and
    [fetch_drand_latest] of src/ocw.py (lines 18-38).

    The loop over [DRAND_ENDPOINTS] is the recursive function [fetch_loop]:
    one request per endpoint, the body returned on the first 200 response
    whose body is JSON, the clock read after every failure and the loop left
    once the deadline has passed.  Its specification is the inductive
    relation [fetch_run], the runs of the failover state machine; the
    refinement theorem says every execution is such a run, and the
    properties of the component (order of the requests, at most one per
    endpoint, first success wins, no request after the deadline, the one
    exception) follow by rule induction.

    [requests.exceptions.JSONDecodeError] is a [RequestException]
    (requests 2.27 and later), so a 200 response whose body is not JSON is
    caught by the [except] clause and the loop goes on. *)

From stdpp Require Import pretty gmap.
From S2P Require Import Prelude PyBytes Pulse World.

(** ** Operations *)

(** The exception raised after the loop. *)
Definition no_valid_response : exn :=
  PyException "No valid response from any Drand endpoint".

(** The [try] block: the body of a response with status 200, when
    [response.json()] gives one; [None] on any [RequestException] and on
    any other status. *)
Definition reply_body (response : http_reply) : option json :=
  match response with
  | HttpError => None
  | HttpResponse status_code body => if status_code =? 200 then body else None
  end.

Section fetcher.
Context `{env : Env}.

(** [for endpoint in DRAND_ENDPOINTS: ...] followed by the [raise]. *)
Fixpoint fetch_loop (endpoints : list string) (relative_path : string)
    (deadline : Z) : M json :=
  match endpoints with
  | [] => lift (raise no_valid_response)
  | endpoint :: endpoints =>
      let uri := endpoint +:+ relative_path in
      response ← requests_get uri HTTP_FETCH_TIMEOUT;
      match reply_body response with
      | Some body => mret body
      | None =>
          now ← time_time;
          if deadline <? now then lift (raise no_valid_response)
          else fetch_loop endpoints relative_path deadline
      end
  end.

Definition fetch_from_any_endpoint (relative_path : string) : M json :=
  now ← time_time;
  let deadline := now + HTTP_FETCH_TIMEOUT in
  fetch_loop DRAND_ENDPOINTS relative_path deadline.

Definition fetch_drand_by_round (round_num : Z) : M json :=
  let relative_path := "/" +:+ CHAIN_HASH +:+ "/public/" +:+ pretty round_num in
  fetch_from_any_endpoint relative_path.

Definition fetch_drand_latest : M json :=
  let relative_path := "/" +:+ CHAIN_HASH +:+ "/public/latest" in
  fetch_from_any_endpoint relative_path.

End fetcher.

(** ** Specification: the runs of the failover state machine *)

(** [fetch_run path deadline endpoints evs r]: starting with [endpoints]
    still to try, the machine performs the events [evs] and ends with [r]. *)
Inductive fetch_run (path : string) (deadline : Z) :
    list string → trace → res json → Prop :=
| fetch_run_exhausted :
    fetch_run path deadline [] [] (Raise no_valid_response)
| fetch_run_success e eps reply body :
    reply_body reply = Some body →
    fetch_run path deadline (e :: eps)
      [EvHttpGet (e +:+ path) HTTP_FETCH_TIMEOUT reply] (Ok body)
| fetch_run_deadline e eps reply t :
    reply_body reply = None → deadline < t →
    fetch_run path deadline (e :: eps)
      [EvHttpGet (e +:+ path) HTTP_FETCH_TIMEOUT reply; EvTime t]
      (Raise no_valid_response)
| fetch_run_next e eps reply t evs r :
    reply_body reply = None → t ≤ deadline →
    fetch_run path deadline eps evs r →
    fetch_run path deadline (e :: eps)
      (EvHttpGet (e +:+ path) HTTP_FETCH_TIMEOUT reply :: EvTime t :: evs) r.

(** One whole fetch: the clock reading that fixes the deadline, then a run
    over the configured endpoints. *)
Definition fetch_events (path : string) (evs : trace) (r : res json) : Prop :=
  ∃ t0 evs', evs = EvTime t0 :: evs' ∧
    fetch_run path (t0 + HTTP_FETCH_TIMEOUT) DRAND_ENDPOINTS evs' r.

(** The relative paths of the two kinds of fetch. *)
Definition round_path (round_num : Z) : string :=
  "/" +:+ CHAIN_HASH +:+ "/public/" +:+ pretty round_num.
Definition latest_path : string := "/" +:+ CHAIN_HASH +:+ "/public/latest".

(** The URI of a path at the first endpoint of the list. *)
Definition first_endpoint (path : string) : string :=
  "https://api.drand.sh" +:+ path.

(** The replies received, in order. *)
Definition replies (tr : trace) : list http_reply :=
  omap (λ ev, match ev with EvHttpGet _ _ r => Some r | _ => None end) tr.

(** The URIs of the endpoints for a path, in the order of the list. *)
Definition endpoint_uris (endpoints : list string) (path : string) : list string :=
  (λ e, e +:+ path) <$> endpoints.

(** ** Lemmas: the loop refines the state machine *)

Section fetcher_lemmas.
Context `{env : Env}.

Lemma fetch_loop_run eps path deadline tr :
  ∃ evs, (fetch_loop eps path deadline tr).2 = tr ++ evs ∧
         fetch_run path deadline eps evs (fetch_loop eps path deadline tr).1.
Proof.
  revert tr. induction eps as [|e eps IH]; intros tr.
  { exists []. rewrite app_nil_r. split; [done|constructor]. }
  cbn [fetch_loop]. rewrite M_bind_unfold. cbn [requests_get].
  set (reply := env_http tr _ _). set (tr1 := tr ++ [_]).
  destruct (reply_body reply) as [body|] eqn:Hb.
  { eexists. split; [done|]. by constructor. }
  rewrite M_bind_unfold. cbn [time_time].
  set (t := env_time tr1). set (tr2 := tr1 ++ [_]).
  destruct (Z.ltb_spec deadline t).
  { exists [EvHttpGet (e +:+ path) HTTP_FETCH_TIMEOUT reply; EvTime t].
    split; [subst tr2 tr1; by rewrite <-app_assoc|]. by constructor. }
  destruct (IH tr2) as (evs & -> & Hrun).
  exists (EvHttpGet (e +:+ path) HTTP_FETCH_TIMEOUT reply :: EvTime t :: evs).
  split; [subst tr2 tr1; by rewrite <-!app_assoc|]. by constructor.
Qed.

Lemma fetch_from_any_endpoint_run path tr :
  ∃ evs,
    (fetch_from_any_endpoint path tr).2 = tr ++ EvTime (env_time tr) :: evs ∧
    fetch_run path (env_time tr + HTTP_FETCH_TIMEOUT) DRAND_ENDPOINTS evs
      (fetch_from_any_endpoint path tr).1.
Proof.
  unfold fetch_from_any_endpoint. rewrite M_bind_unfold. cbn [time_time].
  destruct (fetch_loop_run DRAND_ENDPOINTS path
              (env_time tr + HTTP_FETCH_TIMEOUT)
              (tr ++ [EvTime (env_time tr)])) as (evs & E & Hrun).
  exists evs. split; [|done]. rewrite E, <-app_assoc. done.
Qed.

Lemma fetch_from_any_endpoint_events path tr :
  ∃ evs, (fetch_from_any_endpoint path tr).2 = tr ++ evs ∧
         fetch_events path evs (fetch_from_any_endpoint path tr).1.
Proof.
  destruct (fetch_from_any_endpoint_run path tr) as (evs & E & Hrun).
  eexists. split; [exact E|]. by eexists _, _.
Qed.

(** The same, as an equation on the execution. *)
Lemma fetch_from_any_endpoint_exec path tr :
  ∃ evs r, fetch_from_any_endpoint path tr = (r, tr ++ evs) ∧
           fetch_events path evs r.
Proof.
  destruct (fetch_from_any_endpoint_events path tr) as (evs & E & H).
  exists evs, (fetch_from_any_endpoint path tr).1. split; [|done].
  rewrite <-E. by destruct (fetch_from_any_endpoint path tr).
Qed.

(** A fetch answered by the first endpoint: one clock reading and one
    request. *)
Lemma fetch_from_any_endpoint_first path body tr :
  env_http (tr ++ [EvTime (env_time tr)]) (first_endpoint path) HTTP_FETCH_TIMEOUT
  = HttpResponse 200 (Some body) →
  fetch_from_any_endpoint path tr
  = (Ok body,
     tr ++ [EvTime (env_time tr);
            EvHttpGet (first_endpoint path) HTTP_FETCH_TIMEOUT
              (HttpResponse 200 (Some body))]).
Proof.
  intros H. unfold fetch_from_any_endpoint. rewrite M_bind_unfold.
  cbn [time_time DRAND_ENDPOINTS fetch_loop]. rewrite M_bind_unfold.
  cbn [requests_get]. fold (first_endpoint path). rewrite H. cbn [reply_body].
  by rewrite Z.eqb_refl, M_ret_unfold, <-app_assoc.
Qed.

Lemma fetch_drand_by_round_eq r :
  fetch_drand_by_round r = fetch_from_any_endpoint (round_path r).
Proof. done. Qed.

Lemma fetch_drand_latest_eq :
  fetch_drand_latest = fetch_from_any_endpoint latest_path.
Proof. done. Qed.

End fetcher_lemmas.

(** ** Lemmas: what every run satisfies (rule induction) *)

Section fetch_run_lemmas.
Context (path : string) (deadline : Z).
Implicit Types (eps : list string) (evs : trace) (r : res json).

(** Requests go to a non-empty initial segment of the endpoints, in order. *)
Lemma fetch_run_requested eps evs r :
  fetch_run path deadline eps evs r →
  ∃ k, (k ≤ length eps)%nat ∧ (eps ≠ [] → (1 ≤ k)%nat) ∧
       requested evs = take k (endpoint_uris eps path).
Proof.
  induction 1 as [|e eps reply body _|e eps reply t _ _
                  |e eps reply t evs r _ _ _ (k & Hk & _ & IH)].
  - by exists 0%nat.
  - exists 1%nat. cbn. split; [lia|done].
  - exists 1%nat. cbn. split; [lia|done].
  - exists (S k). cbn [length]. split; [lia|]. split; [lia|].
    unfold requested, endpoint_uris in *. cbn. by rewrite IH.
Qed.

(** The outcome is decided by the replies: all fail, or the last one is the
    first success. *)
Lemma fetch_run_replies eps evs r :
  fetch_run path deadline eps evs r →
  match r with
  | Ok body => ∃ fails reply,
      replies evs = fails ++ [reply] ∧ reply_body reply = Some body ∧
      Forall (λ x, reply_body x = None) fails
  | Raise e => e = no_valid_response ∧
      Forall (λ x, reply_body x = None) (replies evs)
  end.
Proof.
  induction 1 as [|e eps reply body Hb|e eps reply t Hb _
                  |e eps reply t evs r Hb _ _ IH].
  - done.
  - by exists [], reply.
  - split; [done|]. cbn. by repeat constructor.
  - destruct r as [body|e'].
    + destruct IH as (fails & reply' & E & ? & ?).
      exists (reply :: fails), reply'. unfold replies in *. cbn. rewrite <-E.
      split; [done|]. split; [done|]. by constructor.
    + destruct IH as [-> IH]. split; [done|]. unfold replies in *. cbn.
      by constructor.
Qed.

(** After a clock reading past the deadline nothing more happens. *)
Lemma fetch_run_deadline_last eps evs r i t :
  fetch_run path deadline eps evs r →
  evs !! i = Some (EvTime t) → deadline < t →
  S i = length evs ∧ r = Raise no_valid_response.
Proof.
  intros Hrun. revert i.
  induction Hrun as [|e eps reply body _|e eps reply t' _ _
                     |e eps reply t' evs r _ Ht _ IH]; intros i Hi Hd.
  - done.
  - by destruct i as [|[]].
  - destruct i as [|[|[]]]; simplify_eq/=. done.
  - destruct i as [|[|i]]; simplify_eq/=; [lia|].
    destruct (IH i Hi Hd) as [<- ->]. done.
Qed.

(** A run neither signs, nor submits, nor prints. *)
Lemma fetch_run_quiet eps evs r : fetch_run path deadline eps evs r → quiet evs.
Proof. induction 1; auto with ocw. Qed.

End fetch_run_lemmas.

Lemma fetch_events_quiet path evs r : fetch_events path evs r → quiet evs.
Proof. intros (t0 & evs' & -> & H%fetch_run_quiet). auto with ocw. Qed.

#[export] Hint Resolve fetch_events_quiet : ocw.

(** ** Theorems *)

Section fetcher_theorems.
Context `{env : Env}.

(** C3 (refinement): every execution of [fetch_from_any_endpoint] reads the
    clock once and then performs a run of the failover state machine over
    the five endpoints with the deadline ten seconds after that reading; the
    function returns what the run ends with. *)
Theorem fetch_from_any_endpoint_refines path tr :
  ∃ evs,
    events_of (fetch_from_any_endpoint path) tr = EvTime (env_time tr) :: evs ∧
    fetch_run path (env_time tr + HTTP_FETCH_TIMEOUT) DRAND_ENDPOINTS evs
      (fetch_from_any_endpoint path tr).1.
Proof.
  destruct (fetch_from_any_endpoint_run path tr) as (evs & E & Hrun).
  exists evs. split; [by apply events_of_eq|done].
Qed.

(** C12 (failover order): the requests of one fetch go to the first [k]
    endpoints of the list, in the order of the list, one request each, with
    [1 <= k <= 5]. *)
Theorem fetch_from_any_endpoint_requests path tr :
  ∃ k, (1 ≤ k ≤ 5)%nat ∧
       requested (events_of (fetch_from_any_endpoint path) tr)
       = take k (endpoint_uris DRAND_ENDPOINTS path).
Proof.
  destruct (fetch_from_any_endpoint_run path tr) as (evs & E & Hrun).
  rewrite (events_of_eq _ _ _ E).
  apply fetch_run_requested in Hrun as (k & Hk & Hk1 & Hreq).
  exists k. split; [|done]. cbn in Hk. split; [by apply Hk1|done].
Qed.

(** C13 (first success wins): when the fetch returns a body, it is the body
    of the last reply received and every reply before it was a failure; when
    it raises, the exception is the one of the function and every reply was
    a failure. *)
Theorem fetch_from_any_endpoint_result path tr :
  let rs := replies (events_of (fetch_from_any_endpoint path) tr) in
  match (fetch_from_any_endpoint path tr).1 with
  | Ok body => ∃ fails reply,
      rs = fails ++ [reply] ∧ reply_body reply = Some body ∧
      Forall (λ x, reply_body x = None) fails
  | Raise e => e = no_valid_response ∧ Forall (λ x, reply_body x = None) rs
  end.
Proof.
  destruct (fetch_from_any_endpoint_run path tr) as (evs & E & Hrun).
  rewrite (events_of_eq _ _ _ E). apply fetch_run_replies in Hrun.
  by destruct (fetch_from_any_endpoint path tr).1.
Qed.

(** C14 (deadline): once a clock reading taken after a failed request is
    past the deadline, the fetch stops: that reading is its last event and
    it raises. *)
Theorem fetch_from_any_endpoint_deadline path tr i t :
  events_of (fetch_from_any_endpoint path) tr !! S i = Some (EvTime t) →
  env_time tr + HTTP_FETCH_TIMEOUT < t →
  length (events_of (fetch_from_any_endpoint path) tr) = S (S i) ∧
  (fetch_from_any_endpoint path tr).1 = Raise no_valid_response.
Proof.
  destruct (fetch_from_any_endpoint_run path tr) as (evs & E & Hrun).
  rewrite (events_of_eq _ _ _ E). cbn [lookup list_lookup length]. intros Hi Ht.
  destruct (fetch_run_deadline_last _ _ _ _ _ i t Hrun Hi Ht) as [<- ->]. done.
Qed.

End fetcher_theorems.

(** The environment of the failover example of the specification: the
    first two endpoints fail (an exception, a 503), the third answers. *)
Definition failover_env (tick : Z) : Env :=
  scripted_env tick
    (λ uri,
       if decide (uri = "https://api.drand.sh/x") then HttpError
       else if decide (uri = "https://api2.drand.sh/x") then HttpResponse 503 None
       else HttpResponse 200 (Some (JStr "from C")))
    None None (Ok (mkReceipt true "")).

Lemma fetch_from_any_endpoint_deadline_witness :
  length (events_of (fetch_from_any_endpoint (env := failover_env 11000) "/x") [])
  = 3%nat ∧
  fetch_from_any_endpoint (env := failover_env 11000) "/x" [] = (Raise no_valid_response,
    [EvTime 0; EvHttpGet "https://api.drand.sh/x" 10000 HttpError; EvTime 11000]).
Proof.
  split; [|by vm_compute].
  by apply (fetch_from_any_endpoint_deadline (env := failover_env 11000) "/x" [] 1 11000).
Defined.

(** Failover example: with the first two endpoints failing and the
    third answering, the fetch returns the third endpoint's body after one
    request to each of the three, in order, and none to the other two. *)
Example fetch_from_any_endpoint_failover :
  fetch_from_any_endpoint (env := failover_env 1000) "/x" []
  = (Ok (JStr "from C"),
     [EvTime 0;
      EvHttpGet "https://api.drand.sh/x" 10000 HttpError; EvTime 1000;
      EvHttpGet "https://api2.drand.sh/x" 10000 (HttpResponse 503 None);
      EvTime 2000;
      EvHttpGet "https://api3.drand.sh/x" 10000
        (HttpResponse 200 (Some (JStr "from C")))]).
Proof. by vm_compute. Qed.
