(* ===== verification/Beacon.v ===== *)
(** A scripted beacon and chain for the examples: the collaborators of
    sections 6 and 8 of the specification as an environment of [World].

    The beacon serves its pulses from the first endpoint only; the other
    endpoints answer 404.  The chain holds the two storage items and answers
    every call with the same receipt; signing is the identity, so that the
    signature of a call shows the bytes that were signed. *)

From Stdlib Require Import Strings.Byte.
From stdpp Require Import pretty gmap.
From S2P Require Import Prelude PyBytes Pulse World Fetcher.

(** The pulse of round [r]: 32 bytes of randomness that depend on the round
    and a signature of 48 bytes. *)
Definition beacon_pulse (r : Z) : Pulse :=
  mkPulse (JInt r) (replicate 32 (byte_of_Z r)) (replicate 48 xcd).

(** The response of the beacon for a pulse. *)
Definition beacon_response (p : Pulse) : json :=
  pulse_response (round p) (randomness p) (signature p).

(** A beacon that answers the request for the latest pulse with [latest] and
    the request for a round [r] of [rounds] with [by_round r]. *)
Definition beacon (latest : json) (by_round : Z → json) (rounds : list Z)
    (uri : string) : http_reply :=
  if decide (uri = "https://api.drand.sh" +:+ latest_path) then
    HttpResponse 200 (Some latest)
  else
    match list_find (λ r, uri = "https://api.drand.sh" +:+ round_path r) rounds with
    | Some (_, r) => HttpResponse 200 (Some (by_round r))
    | None => HttpResponse 404 None
    end.

(** The beacon whose latest round is [latest] and that serves the 120 rounds
    before it. *)
Definition honest_beacon (latest : Z) : string → http_reply :=
  beacon (beacon_response (beacon_pulse latest))
    (λ r, beacon_response (beacon_pulse r)) (seqZ (latest - 120) 121).

(** A beacon that answers every request with its latest pulse. *)
Definition stuck_beacon (latest : Z) : string → http_reply :=
  beacon (beacon_response (beacon_pulse latest))
    (λ _, beacon_response (beacon_pulse latest)) (seqZ (latest - 120) 121).

(** A beacon whose pulse of round [bad] carries 31 bytes of randomness. *)
Definition faulty_beacon (latest bad : Z) : string → http_reply :=
  beacon (beacon_response (beacon_pulse latest))
    (λ r, if decide (r = bad)
          then pulse_response (JInt r) (replicate 31 x00) []
          else beacon_response (beacon_pulse r))
    (seqZ (latest - 120) 121).

(** A beacon that is down: every request fails. *)
Definition dead_beacon : string → http_reply := λ _, HttpError.

(** The chain with the two storage items; the clock advances 100 ms per
    request sent and the node accepts every call. *)
Definition chain_env (http : string → http_reply)
    (next_unsigned_at last_stored_round : option Z) : Env :=
  scripted_env 100 http next_unsigned_at last_stored_round
    (Ok (mkReceipt true "")).

(** The same with a node that rejects every call. *)
Definition rejecting_env (http : string → http_reply)
    (next_unsigned_at last_stored_round : option Z) (message : string) : Env :=
  scripted_env 100 http next_unsigned_at last_stored_round
    (Ok (mkReceipt false message)).

(** The events of one successful fetch of [path] from the first endpoint at
    time [t]. *)
Definition served (t : Z) (path : string) (body : json) : trace :=
  [EvTime t;
   EvHttpGet ("https://api.drand.sh" +:+ path) HTTP_FETCH_TIMEOUT
     (HttpResponse 200 (Some body))].

Lemma try_into_pulse_beacon_response r :
  try_into_pulse (beacon_response (beacon_pulse r)) = Ok (beacon_pulse r).
Proof.
  unfold beacon_response. rewrite try_into_pulse_response_fields.
  by rewrite decide_False by (cbn [beacon_pulse randomness]; rewrite length_replicate; lia).
Qed.
