(* ===== verification/Submit.v ===== *)
(** SubmissionGate, Submitter and CycleDriver: [submit_new_pulses] and
    [block_subscription_handler] of src/ocw.py (lines 95-177), and the
    subscription that drives them (line 179).

    [submit_new_pulses] is modelled in two parts that compose to the
    function: the gate (lines 96-120: the two storage queries, the latest
    pulse, the bootstrap rule, the gap test and the cap) and
    [submit_pulses] (lines 121-173: the fetch loop, the payload, the
    signature, the call and the report).  The specification of the gate is
    the pure function [gate] of section 4.5. *)

From Stdlib Require Import Strings.Byte Strings.Ascii.
From stdpp Require Import pretty gmap.
From S2P Require Import Prelude PyBytes Compact Pulse Payload World Fetcher Beacon.

(** ** Python arithmetic on a JSON value *)

(** The integer a JSON value stands for in arithmetic and comparisons with
    an [int]: itself for [int], 0 or 1 for [bool]; any other value makes the
    operation raise [TypeError]. *)
Definition py_int (v : json) : res Z :=
  match v with
  | JInt z => Ok z
  | JBool b => Ok (if b then 1 else 0)
  | _ => raise TypeError
  end.

(** [a - b]. *)
Definition py_sub (a : json) (b : Z) : res Z := x ← py_int a; Ok (x - b).

(** [a <= b]. *)
Definition py_le (a : json) (b : Z) : res bool := x ← py_int a; Ok (x <=? b).

(** [value or 0]. *)
Definition or_zero (value : option Z) : Z := value or_else 0.

(** ** Operations *)

(** [pulses_for_call]: the byte fields as 0x-prefixed hexadecimal text. *)
Definition pulses_for_call_of (pulses : list Pulse) : list PulseForCall :=
  (λ p, {| pc_round := round p;
           pc_randomness := "0x" +:+ bytes_hex (randomness p);
           pc_signature := "0x" +:+ bytes_hex (signature p) |}) <$> pulses.

Section submit.
Context `{env : Env}.

(** The loop [for r in range(...): pulses.append(try_into_pulse(
    fetch_drand_by_round(r)))]. *)
Definition fetch_pulses (rounds : list Z) : M (list Pulse) :=
  mapM_M (λ r, resp ← fetch_drand_by_round r; lift (try_into_pulse resp)) rounds.

(** Lines 121-173: fetch the rounds, build and sign the payload, submit the
    call and report. *)
Definition submit_pulses (current_block last_stored_round rounds_to_fetch : Z)
    : M unit :=
  pulses ← fetch_pulses
    (seqZ (last_stored_round + 1)
       (last_stored_round + 1 + rounds_to_fetch - (last_stored_round + 1)));
  match pulses with
  | [] => print "No new pulses to submit."
  | _ :: _ =>
      let public_bytes := keypair_public_key in
      encoded_payload ← lift (encode_pulses_payload
        {| block_number := current_block; pulses := pulses;
           public := public_bytes |});
      signature_bytes ← keypair_sign encoded_payload;
      let pulses_for_call := pulses_for_call_of pulses in
      let call := {|
        call_module := "Drand";
        call_function := "write_pulse";
        call_block_number := current_block;
        call_pulses := pulses_for_call;
        call_public_sr25519 := "0x" +:+ bytes_hex public_bytes;
        call_signature_sr25519 := "0x" +:+ bytes_hex signature_bytes |} in
      receipt ← substrate_submit call;
      if is_success receipt then
        print ("Successfully submitted pulses from round "
               +:+ pretty (last_stored_round + 1) +:+ " up to "
               +:+ pretty (last_stored_round + rounds_to_fetch))
      else
        print ("Failed to submit: " +:+ error_message receipt)
  end.

Definition submit_new_pulses (current_block : Z) : M unit :=
  value ← substrate_query "Drand" "NextUnsignedAt";
  let next_unsigned_at := or_zero value in
  if current_block <? next_unsigned_at then mret tt
  else
    value ← substrate_query "Drand" "LastStoredRound";
    let last_stored_round := or_zero value in
    latest_resp ← fetch_drand_latest;
    latest_pulse ← lift (try_into_pulse latest_resp);
    let current_round := round latest_pulse in
    last_stored_round ←
      (if last_stored_round =? 0 then lift (py_sub current_round 1)
       else mret last_stored_round);
    no_gap ← lift (py_le current_round last_stored_round);
    if no_gap : bool then print "No new rounds to fetch."
    else
      diff ← lift (py_sub current_round last_stored_round);
      let rounds_to_fetch := Z.min diff MAX_PULSES_TO_FETCH in
      submit_pulses current_block last_stored_round rounds_to_fetch.

Definition block_subscription_handler (obj : Header)
    (update_nr subscription_id : Z) : M unit :=
  let current_block := number obj in
  submit_new_pulses current_block.

(** [substrate.subscribe_block_headers(subscription_handler=...)] over the
    headers the node delivers: one call of the handler per header, in order.
    The library calls the handler inside its receive loop without a [try],
    so an exception of the handler leaves [subscribe_block_headers]; the
    call is the last statement of the program (line 179), which therefore
    ends.  This is the behaviour of the library, not of the source or of
    the specification. *)
Fixpoint subscribe_block_headers
    (subscription_handler : Header → Z → Z → M unit)
    (headers : list Header) (update_nr : Z) : M unit :=
  match headers with
  | [] => mret tt
  | obj :: headers =>
      _ ← subscription_handler obj update_nr 0;
      subscribe_block_headers subscription_handler headers (update_nr + 1)
  end.

(** Line 179: the program, for the headers delivered during its run. *)
Definition main (headers : list Header) : M unit :=
  subscribe_block_headers block_subscription_handler headers 0.

End submit.

(** ** Specification of the gate (section 4.5) *)

Inductive decision : Type :=
| Skip
| Fetch (first count : Z).

Definition gate (current_block next_unsigned_at last_stored_round latest_round : Z)
    : decision :=
  if current_block <? next_unsigned_at then Skip
  else
    let last := if last_stored_round =? 0 then latest_round - 1
                else last_stored_round in
    if latest_round <=? last then Skip
    else Fetch (last + 1) (Z.min (latest_round - last) MAX_PULSES_TO_FETCH).

(** ** Specification: the runs of one cycle *)

(** Fetching and validating the pulse of one round. *)
Definition pulse_fetch (path : string) (evs : trace) (r : res Pulse) : Prop :=
  ∃ rb, fetch_events path evs rb ∧ r = rb ≫= try_into_pulse.

(** The fetch loop over the rounds: it stops at the first round whose fetch
    or validation fails. *)
Inductive pulses_run : list Z → trace → res (list Pulse) → Prop :=
| pulses_run_nil : pulses_run [] [] (Ok [])
| pulses_run_fail r rs evs e :
    pulse_fetch (round_path r) evs (Raise e) →
    pulses_run (r :: rs) evs (Raise e)
| pulses_run_cons r rs evs1 p evs2 res :
    pulse_fetch (round_path r) evs1 (Ok p) →
    pulses_run rs evs2 res →
    pulses_run (r :: rs) (evs1 ++ evs2) (cons p <$> res).

(** The call built from the block number, the pulses, the public key and
    the signature. *)
Definition call_of (current_block : Z) (pulses : list Pulse)
    (public_bytes signature_bytes : bytes) : Call := {|
  call_module := "Drand";
  call_function := "write_pulse";
  call_block_number := current_block;
  call_pulses := pulses_for_call_of pulses;
  call_public_sr25519 := "0x" +:+ bytes_hex public_bytes;
  call_signature_sr25519 := "0x" +:+ bytes_hex signature_bytes |}.

(** The node's reading of a call: a byte parameter given as text is
    hexadecimal after the prefix 0x. *)
Definition of_hex0x (s : string) : res bytes :=
  match s with
  | String "0"%char (String "x"%char h) => unhexlify h
  | _ => raise ValueError
  end.

Definition pulse_of_call (pc : PulseForCall) : res Pulse :=
  randomness ← of_hex0x (pc_randomness pc);
  signature ← of_hex0x (pc_signature pc);
  Ok {| round := pc_round pc; randomness := randomness; signature := signature |}.

(** The payload and the signature a call carries. *)
Definition payload_of_call (c : Call) : res (PulsesPayload * bytes) :=
  pulses ← mapM pulse_of_call (call_pulses c);
  public ← of_hex0x (call_public_sr25519 c);
  signature ← of_hex0x (call_signature_sr25519 c);
  Ok ({| block_number := call_block_number c; pulses := pulses;
         public := public |}, signature).

(** The line printed after the node answered. *)
Definition report (last_stored_round rounds_to_fetch : Z) (receipt : Receipt)
    : string :=
  if is_success receipt then
    "Successfully submitted pulses from round "
    +:+ pretty (last_stored_round + 1) +:+ " up to "
    +:+ pretty (last_stored_round + rounds_to_fetch)
  else "Failed to submit: " +:+ error_message receipt.

(** The runs of [submit_pulses]. *)
Inductive submit_run (pk : bytes) (cb last n : Z) : trace → res unit → Prop :=
| submit_run_abort evs e :
    pulses_run (seqZ (last + 1) n) evs (Raise e) →
    submit_run pk cb last n evs (Raise e)
| submit_run_empty evs :
    pulses_run (seqZ (last + 1) n) evs (Ok []) →
    submit_run pk cb last n (evs ++ [EvPrint "No new pulses to submit."]) (Ok tt)
| submit_run_unencodable evs ps e :
    pulses_run (seqZ (last + 1) n) evs (Ok ps) → ps ≠ [] →
    encode_pulses_payload (mkPayload cb ps pk) = Raise e →
    submit_run pk cb last n evs (Raise e)
| submit_run_node_raises evs ps enc sig e :
    pulses_run (seqZ (last + 1) n) evs (Ok ps) → ps ≠ [] →
    encode_pulses_payload (mkPayload cb ps pk) = Ok enc →
    submit_run pk cb last n
      (evs ++ [EvSign enc sig; EvSubmit (call_of cb ps pk sig) (Raise e)])
      (Raise e)
| submit_run_reported evs ps enc sig receipt :
    pulses_run (seqZ (last + 1) n) evs (Ok ps) → ps ≠ [] →
    encode_pulses_payload (mkPayload cb ps pk) = Ok enc →
    submit_run pk cb last n
      (evs ++ [EvSign enc sig; EvSubmit (call_of cb ps pk sig) (Ok receipt);
               EvPrint (report last n receipt)])
      (Ok tt).

(** The two storage queries at the head of a cycle. *)
Definition query_events (nua lsr : option Z) : trace :=
  [EvQuery "Drand" "NextUnsignedAt" (Ok nua);
   EvQuery "Drand" "LastStoredRound" (Ok lsr)].

(** The runs of [submit_new_pulses]. *)
Inductive cycle_run (pk : bytes) (cb : Z) : trace → res unit → Prop :=
| cycle_run_query_raises e :
    cycle_run pk cb [EvQuery "Drand" "NextUnsignedAt" (Raise e)] (Raise e)
| cycle_run_below nua :
    cb < or_zero nua →
    cycle_run pk cb [EvQuery "Drand" "NextUnsignedAt" (Ok nua)] (Ok tt)
| cycle_run_query2_raises nua e :
    or_zero nua ≤ cb →
    cycle_run pk cb
      [EvQuery "Drand" "NextUnsignedAt" (Ok nua);
       EvQuery "Drand" "LastStoredRound" (Raise e)] (Raise e)
| cycle_run_latest_fails nua lsr evs e :
    or_zero nua ≤ cb →
    pulse_fetch latest_path evs (Raise e) →
    cycle_run pk cb (query_events nua lsr ++ evs) (Raise e)
| cycle_run_round_type nua lsr evs p e :
    or_zero nua ≤ cb →
    pulse_fetch latest_path evs (Ok p) → py_int (round p) = Raise e →
    cycle_run pk cb (query_events nua lsr ++ evs) (Raise e)
| cycle_run_no_gap nua lsr evs p c :
    pulse_fetch latest_path evs (Ok p) → py_int (round p) = Ok c →
    gate cb (or_zero nua) (or_zero lsr) c = Skip → or_zero nua ≤ cb →
    cycle_run pk cb
      (query_events nua lsr ++ evs ++ [EvPrint "No new rounds to fetch."])
      (Ok tt)
| cycle_run_submit nua lsr evs p c first count evs' r :
    pulse_fetch latest_path evs (Ok p) → py_int (round p) = Ok c →
    gate cb (or_zero nua) (or_zero lsr) c = Fetch first count →
    submit_run pk cb (first - 1) count evs' r →
    cycle_run pk cb (query_events nua lsr ++ evs ++ evs') r.

(** ** Lemmas: the functions refine the specification *)

Lemma py_sub_Ok v c b : py_int v = Ok c → py_sub v b = Ok (c - b).
Proof. unfold py_sub. by intros ->. Qed.
Lemma py_le_Ok v c b : py_int v = Ok c → py_le v b = Ok (c <=? b).
Proof. unfold py_le. by intros ->. Qed.
Lemma py_sub_Raise v e b : py_int v = Raise e → py_sub v b = Raise e.
Proof. unfold py_sub. by intros ->. Qed.
Lemma py_le_Raise v e b : py_int v = Raise e → py_le v b = Raise e.
Proof. unfold py_le. by intros ->. Qed.

Lemma M_bind_lift {A B} (r : res A) (f : A → M B) tr :
  (lift r ≫= f) tr = match r with Ok a => f a tr | Raise e => (Raise e, tr) end.
Proof. by destruct r. Qed.

Section refinement.
Context `{env : Env}.

Lemma fetch_then_validate_run path tr :
  ∃ evs r,
    (resp ← fetch_from_any_endpoint path; lift (try_into_pulse resp)) tr
    = (r, tr ++ evs) ∧ pulse_fetch path evs r.
Proof.
  destruct (fetch_from_any_endpoint_exec path tr) as (evs & rb & E & H).
  rewrite M_bind_unfold, E. exists evs, (rb ≫= try_into_pulse).
  split; [by destruct rb|by exists rb].
Qed.

Lemma fetch_pulses_run rounds tr :
  ∃ evs r, fetch_pulses rounds tr = (r, tr ++ evs) ∧ pulses_run rounds evs r.
Proof.
  revert tr. induction rounds as [|r rounds IH]; intros tr.
  { exists [], (Ok []). rewrite app_nil_r. split; [done|constructor]. }
  unfold fetch_pulses. cbn [mapM_M]. fold (fetch_pulses rounds).
  rewrite fetch_drand_by_round_eq, M_bind_unfold.
  destruct (fetch_then_validate_run (round_path r) tr)
    as (evs1 & [p|e] & -> & H1).
  - destruct (IH (tr ++ evs1)) as (evs2 & res & E2 & H2).
    rewrite M_bind_unfold, E2. exists (evs1 ++ evs2), (cons p <$> res).
    rewrite app_assoc. split; [by destruct res|by constructor].
  - exists evs1, (Raise e). split; [done|by constructor].
Qed.

Lemma submit_pulses_run cb last n tr :
  ∃ evs r, submit_pulses cb last n tr = (r, tr ++ evs) ∧
           submit_run env_public_key cb last n evs r.
Proof.
  unfold submit_pulses. rewrite M_bind_unfold.
  replace (last + 1 + n - (last + 1)) with n by lia.
  destruct (fetch_pulses_run (seqZ (last + 1) n) tr)
    as (evs & [[|p ps]|e] & -> & Hps).
  - exists (evs ++ [EvPrint "No new pulses to submit."]), (Ok tt).
    split; [|by apply submit_run_empty].
    unfold print, emit. by rewrite <-app_assoc.
  - unfold keypair_public_key. rewrite M_bind_lift.
    destruct (encode_pulses_payload _) as [enc|e] eqn:Henc;
      [|eexists _, _; split; [done|by eapply submit_run_unencodable]].
    rewrite M_bind_unfold. cbn [keypair_sign].
    rewrite M_bind_unfold. cbn [substrate_submit].
    set (sig := env_sign _ _). fold (call_of cb (p :: ps) env_public_key sig).
    destruct (env_submit _ _) as [receipt|e] eqn:Hr.
    + exists (evs ++ [EvSign enc sig;
                      EvSubmit (call_of cb (p :: ps) env_public_key sig) (Ok receipt);
                      EvPrint (report last n receipt)]), (Ok tt).
      split; [|by eapply submit_run_reported].
      unfold report, print, emit.
      destruct (is_success receipt); by rewrite <-!app_assoc.
    + eexists (evs ++ [EvSign enc sig; EvSubmit _ (Raise e)]), _.
      split; [by rewrite <-!app_assoc|by eapply submit_run_node_raises].
  - eexists _, _. split; [done|by constructor].
Qed.

(** Lines 108-120 once the round of the latest pulse is an integer. *)
Lemma submit_new_pulses_tail cb lsr v c tr :
  py_int v = Ok c →
  (last_stored_round ←
     (if lsr =? 0 then lift (py_sub v 1) else mret lsr);
   no_gap ← lift (py_le v last_stored_round);
   if no_gap : bool then print "No new rounds to fetch."
   else
     diff ← lift (py_sub v last_stored_round);
     submit_pulses cb last_stored_round (Z.min diff MAX_PULSES_TO_FETCH)) tr
  = let last := if lsr =? 0 then c - 1 else lsr in
    if c <=? last then print "No new rounds to fetch." tr
    else submit_pulses cb last (Z.min (c - last) MAX_PULSES_TO_FETCH) tr.
Proof.
  intros Hc. cbn zeta.
  destruct (lsr =? 0);
    [rewrite M_bind_lift, (py_sub_Ok _ c) by done
    |rewrite M_bind_unfold, M_ret_unfold];
    rewrite M_bind_lift, (py_le_Ok _ c) by done;
    (destruct (c <=? _); [done|]);
    by rewrite M_bind_lift, (py_sub_Ok _ c) by done.
Qed.

Lemma submit_new_pulses_tail_Raise cb lsr v e tr :
  py_int v = Raise e →
  (last_stored_round ←
     (if lsr =? 0 then lift (py_sub v 1) else mret lsr);
   no_gap ← lift (py_le v last_stored_round);
   if no_gap : bool then print "No new rounds to fetch."
   else
     diff ← lift (py_sub v last_stored_round);
     submit_pulses cb last_stored_round (Z.min diff MAX_PULSES_TO_FETCH)) tr
  = (Raise e, tr).
Proof.
  intros He. destruct (lsr =? 0).
  - by rewrite M_bind_lift, (py_sub_Raise _ e).
  - by rewrite M_bind_unfold, M_ret_unfold, M_bind_lift, (py_le_Raise _ e).
Qed.

Lemma gate_above cb nua lsr c :
  nua ≤ cb →
  gate cb nua lsr c
  = let last := if lsr =? 0 then c - 1 else lsr in
    if c <=? last then Skip
    else Fetch (last + 1) (Z.min (c - last) MAX_PULSES_TO_FETCH).
Proof. intros H. unfold gate. by rewrite (proj2 (Z.ltb_ge _ _)). Qed.

(** The cycle once both queries are answered and the latest pulse is in. *)
Lemma submit_new_pulses_decided cb nua lsr p c evs tr :
  or_zero nua ≤ cb →
  pulse_fetch latest_path evs (Ok p) → py_int (round p) = Ok c →
  ∃ evs' r,
    (let last := if or_zero lsr =? 0 then c - 1 else or_zero lsr in
     if c <=? last then print "No new rounds to fetch." (tr ++ query_events nua lsr ++ evs)
     else submit_pulses cb last (Z.min (c - last) MAX_PULSES_TO_FETCH)
            (tr ++ query_events nua lsr ++ evs))
    = (r, tr ++ query_events nua lsr ++ evs ++ evs') ∧
    cycle_run env_public_key cb (query_events nua lsr ++ evs ++ evs') r.
Proof.
  intros Hcb Hp Hc. pose proof (gate_above cb _ (or_zero lsr) c Hcb) as Hg.
  cbn zeta in *. set (last := if or_zero lsr =? 0 then _ else _) in *.
  destruct (c <=? last).
  - exists [EvPrint "No new rounds to fetch."], (Ok tt).
    split; [|by eapply cycle_run_no_gap].
    unfold print, emit. by rewrite <-!app_assoc.
  - destruct (submit_pulses_run cb last (Z.min (c - last) MAX_PULSES_TO_FETCH)
                (tr ++ query_events nua lsr ++ evs)) as (evs' & r & -> & Hrun).
    exists evs', r. split; [by rewrite <-!app_assoc|].
    eapply cycle_run_submit; [done..|].
    by replace (last + 1 - 1) with last by lia.
Qed.

Lemma submit_new_pulses_run cb tr :
  ∃ evs r, submit_new_pulses cb tr = (r, tr ++ evs) ∧
           cycle_run env_public_key cb evs r.
Proof.
  unfold submit_new_pulses. rewrite M_bind_unfold. cbn [substrate_query].
  destruct (env_query tr _ _) as [nua|e]; [|eexists _, _; split; [done|constructor]].
  destruct (Z.ltb_spec cb (or_zero nua)) as [Hlt|Hge];
    [eexists _, _; split; [done|by constructor]|].
  rewrite M_bind_unfold. cbn [substrate_query].
  destruct (env_query _ _ _) as [lsr|e];
    [|eexists _, _; split; [by rewrite <-app_assoc|by constructor]].
  rewrite <-app_assoc. change ([?a] ++ [?b]) with [a; b].
  fold (query_events nua lsr).
  rewrite fetch_drand_latest_eq, M_bind_unfold.
  destruct (fetch_from_any_endpoint_exec latest_path (tr ++ query_events nua lsr))
    as (evs & rb & -> & Hev).
  rewrite <-app_assoc.
  assert (pulse_fetch latest_path evs (rb ≫= try_into_pulse)) as Hp by by exists rb.
  destruct rb as [body|e]; [rewrite M_bind_lift|];
    cbn [mbind res_bind] in Hp; [destruct (try_into_pulse body) as [p|e]|].
  2,3: eexists _, _; split; [done|by eapply cycle_run_latest_fails].
  destruct (py_int (round p)) as [c|e] eqn:Hc.
  - rewrite (submit_new_pulses_tail _ _ _ c) by done.
    destruct (submit_new_pulses_decided cb nua lsr p c evs tr)
      as (evs' & r & -> & Hrun); [done..|].
    eexists _, r. split; [done|exact Hrun].
  - rewrite (submit_new_pulses_tail_Raise _ _ _ e) by done.
    eexists _, _. split; [done|by eapply cycle_run_round_type].
Qed.

(** The cycle as an equation, once the collaborators have answered the two
    queries and the request for the latest pulse. *)
Lemma submit_new_pulses_gate cb tr nua lsr evs body p c :
  env_query tr "Drand" "NextUnsignedAt" = Ok nua →
  env_query (tr ++ [EvQuery "Drand" "NextUnsignedAt" (Ok nua)])
    "Drand" "LastStoredRound" = Ok lsr →
  fetch_drand_latest (tr ++ query_events nua lsr)
  = (Ok body, tr ++ query_events nua lsr ++ evs) →
  try_into_pulse body = Ok p → py_int (round p) = Ok c →
  submit_new_pulses cb tr
  = match gate cb (or_zero nua) (or_zero lsr) c with
    | Fetch first count =>
        submit_pulses cb (first - 1) count (tr ++ query_events nua lsr ++ evs)
    | Skip =>
        if cb <? or_zero nua
        then (Ok tt, tr ++ [EvQuery "Drand" "NextUnsignedAt" (Ok nua)])
        else print "No new rounds to fetch." (tr ++ query_events nua lsr ++ evs)
    end.
Proof.
  intros Hq1 Hq2 Hlatest Hp Hc. unfold submit_new_pulses.
  rewrite M_bind_unfold. cbn [substrate_query]. rewrite Hq1.
  destruct (Z.ltb_spec cb (or_zero nua)) as [Hlt|Hge].
  { unfold gate. by rewrite (proj2 (Z.ltb_lt _ _) Hlt). }
  rewrite M_bind_unfold. cbn [substrate_query]. rewrite Hq2, <-app_assoc.
  change ([?a] ++ [?b]) with [a; b]. fold (query_events nua lsr).
  rewrite M_bind_unfold, Hlatest, M_bind_lift, Hp.
  rewrite (submit_new_pulses_tail _ _ _ c), gate_above by done. cbn zeta.
  destruct (c <=? _); [done|]. f_equal. lia.
Qed.

(** The same when the round of the latest pulse is not a number. *)
Lemma submit_new_pulses_gate_Raise cb tr nua lsr evs body p e :
  env_query tr "Drand" "NextUnsignedAt" = Ok nua → or_zero nua ≤ cb →
  env_query (tr ++ [EvQuery "Drand" "NextUnsignedAt" (Ok nua)])
    "Drand" "LastStoredRound" = Ok lsr →
  fetch_drand_latest (tr ++ query_events nua lsr)
  = (Ok body, tr ++ query_events nua lsr ++ evs) →
  try_into_pulse body = Ok p → py_int (round p) = Raise e →
  submit_new_pulses cb tr = (Raise e, tr ++ query_events nua lsr ++ evs).
Proof.
  intros Hq1 Hge Hq2 Hlatest Hp Hc. unfold submit_new_pulses.
  rewrite M_bind_unfold. cbn [substrate_query].
  rewrite Hq1, (proj2 (Z.ltb_ge _ _) Hge).
  rewrite M_bind_unfold. cbn [substrate_query]. rewrite Hq2, <-app_assoc.
  change ([?a] ++ [?b]) with [a; b]. fold (query_events nua lsr).
  rewrite M_bind_unfold, Hlatest, M_bind_lift, Hp.
  by rewrite (submit_new_pulses_tail_Raise _ _ _ e).
Qed.

(** The submitter as an equation, once the loop has returned its pulses and
    the node has answered. *)
Lemma submit_pulses_exec cb last n tr tr1 p ps enc receipt :
  fetch_pulses (seqZ (last + 1) n) tr = (Ok (p :: ps), tr1) →
  encode_pulses_payload (mkPayload cb (p :: ps) env_public_key) = Ok enc →
  let sig := env_sign tr1 enc in
  let call := call_of cb (p :: ps) env_public_key sig in
  env_submit (tr1 ++ [EvSign enc sig]) call = Ok receipt →
  submit_pulses cb last n tr
  = (Ok tt, tr1 ++ [EvSign enc sig; EvSubmit call (Ok receipt);
                    EvPrint (report last n receipt)]).
Proof.
  intros Hf Henc sig call Hr. unfold submit_pulses. rewrite M_bind_unfold.
  replace (last + 1 + n - (last + 1)) with n by lia. rewrite Hf.
  unfold keypair_public_key. rewrite M_bind_lift, Henc.
  rewrite M_bind_unfold. cbn [keypair_sign].
  rewrite M_bind_unfold. cbn [substrate_submit].
  fold sig. fold (call_of cb (p :: ps) env_public_key sig). fold call.
  rewrite Hr. unfold report, print, emit.
  destruct (is_success receipt); by rewrite <-!app_assoc.
Qed.

(** The batch when the loop has its pulses and the node answers with a
    receipt. *)
Lemma submit_pulses_served cb last n ps tr tr1 enc receipt :
  fetch_pulses (seqZ (last + 1) n) tr = (Ok ps, tr1) → ps ≠ [] →
  encode_pulses_payload (mkPayload cb ps env_public_key) = Ok enc →
  (∀ tr call, env_submit tr call = Ok receipt) →
  ∃ sig,
    submit_pulses cb last n tr
    = (Ok tt, tr1 ++ [EvSign enc sig;
                      EvSubmit (call_of cb ps env_public_key sig) (Ok receipt);
                      EvPrint (report last n receipt)]).
Proof.
  intros Hf Hne Henc Hs. destruct ps as [|p ps]; [done|].
  eexists. by eapply submit_pulses_exec.
Qed.

(** The loop over the rounds up to a round whose fetch or validation
    fails: it ends there. *)
Lemma fetch_pulses_abort rs1 r rs2 tr ps tr1 tr2 e :
  fetch_pulses rs1 tr = (Ok ps, tr1) →
  (resp ← fetch_drand_by_round r; lift (try_into_pulse resp)) tr1 = (Raise e, tr2) →
  fetch_pulses (rs1 ++ r :: rs2) tr = (Raise e, tr2).
Proof.
  intros H1 Hr. unfold fetch_pulses in *. rewrite mapM_M_app, H1.
  cbn [mapM_M]. by rewrite M_bind_unfold, Hr.
Qed.

End refinement.

(** ** Lemmas: what every run satisfies (rule induction) *)

(** The URIs one fetch of [path] requests when it tries [k] endpoints. *)
Definition fetch_uris (path : string) (k : nat) : list string :=
  take k (endpoint_uris DRAND_ENDPOINTS path).

Lemma pulse_fetch_quiet path evs r : pulse_fetch path evs r → quiet evs.
Proof. intros (rb & H & _). eauto with ocw. Qed.

Lemma pulse_fetch_Ok path evs p :
  pulse_fetch path evs (Ok p) → length (randomness p) = 32%nat.
Proof.
  intros ([body|e] & _ & H); [|done]. symmetry in H.
  by apply try_into_pulse_inv in H as (?&?&?&?&?&?&?&?&?&?).
Qed.

Lemma pulse_fetch_requested path evs r :
  pulse_fetch path evs r →
  ∃ k, (1 ≤ k ≤ 5)%nat ∧ requested evs = fetch_uris path k.
Proof.
  intros (rb & (t0 & evs' & -> & H) & _).
  apply fetch_run_requested in H as (k & Hk & Hk1 & Hreq).
  exists k. split; [|done]. cbn in Hk. split; [by apply Hk1|done].
Qed.

Lemma pulses_run_quiet rs evs r : pulses_run rs evs r → quiet evs.
Proof. induction 1; eauto using pulse_fetch_quiet with ocw. Qed.

(** A loop that completes gives one validated pulse per round. *)
Lemma pulses_run_Ok rs evs r :
  pulses_run rs evs r → ∀ ps, r = Ok ps →
  length ps = length rs ∧ Forall (λ p, length (randomness p) = 32%nat) ps.
Proof.
  induction 1 as [|r rs evs e _|r rs evs1 p evs2 res Hp _ IH]; intros ps E.
  - by injection E as <-.
  - done.
  - destruct res as [ps'|]; [|done]. injection E as <-.
    destruct (IH ps' eq_refl) as [Hl Hps].
    split; [cbn; lia|constructor; eauto using pulse_fetch_Ok].
Qed.

(** The rounds are fetched in the order of the list, every fetch going
    through the endpoints from the first one; a loop that completes has
    fetched every round. *)
Lemma pulses_run_requested rs evs r :
  pulses_run rs evs r →
  ∃ ks, (length ks ≤ length rs)%nat ∧ (is_Ok r → length ks = length rs) ∧
        Forall (λ k, 1 ≤ k ≤ 5)%nat ks ∧
        requested evs = concat (zip_with (λ r, fetch_uris (round_path r)) rs ks).
Proof.
  induction 1 as [|r rs evs e (k & Hk & Hreq)%pulse_fetch_requested
                  |r rs evs1 p evs2 res (k & Hk & Hreq)%pulse_fetch_requested
                     _ (ks & Hl & Hok & Hks & IH)].
  - by exists [].
  - exists [k]. destruct rs; cbn; rewrite app_nil_r;
      (split; [lia|]; split; [by intros [? [=]]|]; split; [by constructor|done]).
  - exists (k :: ks). cbn. rewrite requested_app, Hreq, IH.
    split; [lia|]. split; [|split; [by constructor|done]].
    intros [ps Hps]. rewrite Hok; [done|]. destruct res; [by eexists|done].
Qed.

(** What a decision to fetch implies. *)
Lemma gate_Fetch cb nua lsr c first count :
  gate cb nua lsr c = Fetch first count →
  nua ≤ cb ∧ 1 ≤ count ≤ MAX_PULSES_TO_FETCH ∧
  first = (if lsr =? 0 then c else lsr + 1) ∧
  count = Z.min (c - first + 1) MAX_PULSES_TO_FETCH.
Proof.
  unfold gate, MAX_PULSES_TO_FETCH.
  destruct (Z.ltb_spec cb nua); [done|].
  destruct (Z.eqb_spec lsr 0); case_zbool; intros [=]; lia.
Qed.

Lemma report_not_empty last n receipt :
  report last n receipt ≠ "No new pulses to submit.".
Proof. unfold report. by destruct (is_success receipt). Qed.

(** The effects of a batch: either nothing is signed and nothing is
    submitted, or the encoding of the payload of all [count] pulses is signed
    once and one call carries these pulses and that signature. *)
Definition batch_effects (pk : bytes) (cb count : Z) (evs : trace) : Prop :=
  (submitted evs = [] ∧ signatures evs = []) ∨
  ∃ ps enc sig,
    length ps = Z.to_nat count ∧
    Forall (λ p, length (randomness p) = 32%nat) ps ∧
    encode_pulses_payload (mkPayload cb ps pk) = Ok enc ∧
    signatures evs = [(enc, sig)] ∧
    submitted evs = [call_of cb ps pk sig].

Lemma batch_effects_quiet pk cb count evs : quiet evs → batch_effects pk cb count evs.
Proof. intros (? & ? & ?). by left. Qed.

Lemma batch_effects_quiet_l pk cb count evs1 evs2 :
  quiet evs1 → batch_effects pk cb count evs2 →
  batch_effects pk cb count (evs1 ++ evs2).
Proof.
  intros Hq. unfold batch_effects.
  by rewrite submitted_quiet_l, signatures_quiet_l.
Qed.

Lemma submit_run_effects pk cb last n evs r :
  submit_run pk cb last n evs r → batch_effects pk cb n evs.
Proof.
  destruct 1 as [evs e H|evs H|evs ps e H _ _|evs ps enc sig e H _ Henc
                 |evs ps enc sig receipt H _ Henc];
    pose proof (pulses_run_quiet _ _ _ H) as Hq.
  1,3: by apply batch_effects_quiet.
  - apply batch_effects_quiet_l; [done|by left].
  - destruct (pulses_run_Ok _ _ _ H ps eq_refl) as [Hl Hps].
    rewrite length_seqZ in Hl. apply batch_effects_quiet_l; [done|].
    right. by exists ps, enc, sig.
  - destruct (pulses_run_Ok _ _ _ H ps eq_refl) as [Hl Hps].
    rewrite length_seqZ in Hl. apply batch_effects_quiet_l; [done|].
    right. by exists ps, enc, sig.
Qed.

Lemma submit_run_printed pk cb last n evs r :
  submit_run pk cb last n evs r → 0 < n →
  "No new pulses to submit." ∉ printed evs.
Proof.
  destruct 1 as [evs e H|evs H|evs ps e H _ _|evs ps enc sig e H _ Henc
                 |evs ps enc sig receipt H _ Henc]; intros Hn;
    pose proof (pulses_run_quiet _ _ _ H) as Hq;
    rewrite ?printed_quiet_l by done; try (destruct Hq as (_ & _ & ->));
    cbn; try apply not_elem_of_nil.
  - destruct (pulses_run_Ok _ _ _ H [] eq_refl) as [Hl _].
    rewrite length_seqZ in Hl. cbn in Hl. lia.
  - intros ?%list_elem_of_singleton. by eapply report_not_empty.
Qed.

Lemma submit_run_requested pk cb last n evs r :
  submit_run pk cb last n evs r →
  ∃ ks, (length ks ≤ Z.to_nat n)%nat ∧ Forall (λ k, 1 ≤ k ≤ 5)%nat ks ∧
        requested evs
        = concat (zip_with (λ r, fetch_uris (round_path r)) (seqZ (last + 1) n) ks).
Proof.
  destruct 1 as [evs e H|evs H|evs ps e H _ _|evs ps enc sig e H _ Henc
                 |evs ps enc sig receipt H _ Henc];
    apply pulses_run_requested in H as (ks & Hl & _ & Hks & Hreq);
    rewrite length_seqZ in Hl; exists ks;
    rewrite ?requested_app, Hreq; cbn; by rewrite ?app_nil_r.
Qed.

Lemma query_events_quiet nua lsr : quiet (query_events nua lsr).
Proof. done. Qed.

#[export] Hint Resolve query_events_quiet pulse_fetch_quiet pulses_run_quiet : ocw.

(** A cycle signs and submits at most one batch, of 1 to 50 pulses. *)
Lemma cycle_run_effects pk cb evs r :
  cycle_run pk cb evs r →
  ∃ count, 1 ≤ count ≤ MAX_PULSES_TO_FETCH ∧ batch_effects pk cb count evs.
Proof.
  destruct 1 as [e|nua _|nua e _|nua lsr evs e _ H|nua lsr evs p e _ H _
                 |nua lsr evs p c H _ _ _
                 |nua lsr evs p c first count evs' r H _ Hg Hrun].
  1-5: exists 1; split; [done|]; apply batch_effects_quiet;
       try done; eauto 6 with ocw.
  - exists 1. split; [done|].
    repeat (apply batch_effects_quiet_l; [eauto with ocw|]). by left.
  - exists count. split; [by apply gate_Fetch in Hg as (_ & ? & _)|].
    repeat (apply batch_effects_quiet_l; [eauto with ocw|]).
    by eapply submit_run_effects.
Qed.

(** The message of the empty batch is never printed. *)
Lemma cycle_run_printed pk cb evs r :
  cycle_run pk cb evs r → "No new pulses to submit." ∉ printed evs.
Proof.
  destruct 1 as [e|nua _|nua e _|nua lsr evs e _ H|nua lsr evs p e _ H _
                 |nua lsr evs p c H _ _ _
                 |nua lsr evs p c first count evs' r H _ Hg Hrun].
  1-3: apply not_elem_of_nil.
  1-2: rewrite !printed_quiet_l by eauto with ocw;
       apply pulse_fetch_quiet in H as (_ & _ & ->); apply not_elem_of_nil.
  - rewrite !printed_quiet_l by eauto with ocw. cbn.
    by intros [=]%list_elem_of_singleton.
  - rewrite !printed_quiet_l by eauto with ocw.
    eapply submit_run_printed; [done|].
    apply gate_Fetch in Hg as (_ & ? & _). lia.
Qed.

(** The requests of a cycle: none, or the latest pulse and then the rounds
    the gate decided on, in ascending order. *)
Lemma cycle_run_requested pk cb evs r :
  cycle_run pk cb evs r →
  requested evs = [] ∨
  ∃ k, (1 ≤ k ≤ 5)%nat ∧
    (requested evs = fetch_uris latest_path k ∨
     ∃ last n ks, 1 ≤ n ≤ MAX_PULSES_TO_FETCH ∧
       (length ks ≤ Z.to_nat n)%nat ∧ Forall (λ k, 1 ≤ k ≤ 5)%nat ks ∧
       requested evs
       = fetch_uris latest_path k
         ++ concat (zip_with (λ r, fetch_uris (round_path r)) (seqZ (last + 1) n) ks)).
Proof.
  destruct 1 as [e|nua _|nua e _|nua lsr evs e _ H|nua lsr evs p e _ H _
                 |nua lsr evs p c H _ _ _
                 |nua lsr evs p c first count evs' r H _ Hg Hrun].
  1-3: by left.
  all: right; apply pulse_fetch_requested in H as (k & Hk & Hreq);
       exists k; (split; [done|]); rewrite !requested_app, Hreq.
  1-2: left; cbn; done.
  - left. cbn. by rewrite app_nil_r.
  - right. apply submit_run_requested in Hrun as (ks & Hl & Hks & ->).
    exists (first - 1), count, ks.
    split; [by apply gate_Fetch in Hg as (_ & ? & _)|done].
Qed.

(** ** Specification and lemmas: the driver *)

(** The runs of the subscription: one cycle per header, in order, until a
    cycle raises. *)
Inductive driver_run (pk : bytes) : list Header → trace → res unit → Prop :=
| driver_run_done : driver_run pk [] [] (Ok tt)
| driver_run_raise h hs evs e :
    cycle_run pk (number h) evs (Raise e) →
    driver_run pk (h :: hs) evs (Raise e)
| driver_run_next h hs evs evs' r :
    cycle_run pk (number h) evs (Ok tt) → driver_run pk hs evs' r →
    driver_run pk (h :: hs) (evs ++ evs') r.

Lemma driver_run_submitted pk hs evs r :
  driver_run pk hs evs r → (length (submitted evs) ≤ length hs)%nat.
Proof.
  induction 1 as [|h hs evs e (n & _ & H)%cycle_run_effects
                  |h hs evs evs' r (n & _ & H)%cycle_run_effects _ IH];
    [done|..]; rewrite ?submitted_app, ?length_app; cbn;
    destruct H as [[-> _]|(? & ? & ? & _ & _ & _ & _ & ->)]; cbn; lia.
Qed.

Section driver.
Context `{env : Env}.

Lemma subscribe_block_headers_app handler hs1 hs2 u tr :
  subscribe_block_headers handler (hs1 ++ hs2) u tr
  = match subscribe_block_headers handler hs1 u tr with
    | (Ok _, tr1) =>
        subscribe_block_headers handler hs2 (u + Z.of_nat (length hs1)) tr1
    | (Raise e, tr1) => (Raise e, tr1)
    end.
Proof.
  revert u tr. induction hs1 as [|h hs1 IH]; intros u tr.
  { cbn. by rewrite Z.add_0_r. }
  cbn [app subscribe_block_headers length]. rewrite !M_bind_unfold.
  destruct (handler h u 0 tr) as [[[]|e] tr1]; [|done].
  rewrite IH. by replace (u + 1 + Z.of_nat (length hs1))
    with (u + Z.of_nat (S (length hs1))) by lia.
Qed.

Lemma subscribe_block_headers_run hs u tr :
  ∃ evs r,
    subscribe_block_headers block_subscription_handler hs u tr = (r, tr ++ evs) ∧
    driver_run env_public_key hs evs r.
Proof.
  revert u tr. induction hs as [|h hs IH]; intros u tr.
  { exists [], (Ok tt). rewrite app_nil_r. split; [done|constructor]. }
  cbn [subscribe_block_headers]. rewrite M_bind_unfold.
  unfold block_subscription_handler at 1.
  destruct (submit_new_pulses_run (number h) tr) as (evs & [[]|e] & -> & Hc).
  - destruct (IH (u + 1) (tr ++ evs)) as (evs' & r & -> & Hd).
    exists (evs ++ evs'), r. rewrite app_assoc. split; [done|by constructor].
  - exists evs, (Raise e). split; [done|by constructor].
Qed.

End driver.

(** ** Theorems: one cycle *)

Section cycle_theorems.
Context `{env : Env}.

(** C1 (refinement): every execution of [submit_new_pulses] is a run of the
    cycle specification [cycle_run]: the query of [NextUnsignedAt]; below
    the threshold nothing more; otherwise the query of [LastStoredRound],
    the fetch and validation of the latest pulse, the decision of [gate] on
    the two stored values and the latest round, and for a decision to fetch
    a run of the batch: the rounds in ascending order, the payload encoded
    and signed, one call submitted and its receipt reported.  An exception
    at any step ends the run with that exception. *)
Theorem submit_new_pulses_refines cb tr :
  (submit_new_pulses cb tr).2 = tr ++ events_of (submit_new_pulses cb) tr ∧
  cycle_run env_public_key cb
    (events_of (submit_new_pulses cb) tr) (submit_new_pulses cb tr).1.
Proof.
  destruct (submit_new_pulses_run cb tr) as (evs & r & E & H).
  destruct (exec_events _ _ _ _ E) as [-> ->]. by rewrite E.
Qed.

(** C4 (gate): when both storage items are read, the latest pulse is
    fetched and validated and its round is the integer [c], the cycle does
    what [gate] decides on the block number, the two stored values (a
    missing value counts as 0) and [c]: below the threshold it returns after
    the first query; without a gap it prints that there is nothing to fetch;
    otherwise it runs the batch of [count] rounds from [first]. *)
Theorem submit_new_pulses_decision cb tr nua lsr evs body p c :
  env_query tr "Drand" "NextUnsignedAt" = Ok nua →
  env_query (tr ++ [EvQuery "Drand" "NextUnsignedAt" (Ok nua)])
    "Drand" "LastStoredRound" = Ok lsr →
  fetch_drand_latest (tr ++ query_events nua lsr)
  = (Ok body, tr ++ query_events nua lsr ++ evs) →
  try_into_pulse body = Ok p → py_int (round p) = Ok c →
  submit_new_pulses cb tr
  = match gate cb (or_zero nua) (or_zero lsr) c with
    | Fetch first count =>
        submit_pulses cb (first - 1) count (tr ++ query_events nua lsr ++ evs)
    | Skip =>
        if cb <? or_zero nua
        then (Ok tt, tr ++ [EvQuery "Drand" "NextUnsignedAt" (Ok nua)])
        else print "No new rounds to fetch." (tr ++ query_events nua lsr ++ evs)
    end.
Proof. apply submit_new_pulses_gate. Qed.

(** C21 (a round that is not a number): when both storage items are read,
    the block is not below the threshold and the latest pulse validates with
    a round that is neither an integer nor a boolean, the cycle raises
    [TypeError] right after the fetch of the latest pulse: the unvalidated
    round fails in the arithmetic of the gate, before any round is
    fetched. *)
Theorem submit_new_pulses_round_type cb tr nua lsr evs body p :
  env_query tr "Drand" "NextUnsignedAt" = Ok nua → or_zero nua ≤ cb →
  env_query (tr ++ [EvQuery "Drand" "NextUnsignedAt" (Ok nua)])
    "Drand" "LastStoredRound" = Ok lsr →
  fetch_drand_latest (tr ++ query_events nua lsr)
  = (Ok body, tr ++ query_events nua lsr ++ evs) →
  try_into_pulse body = Ok p →
  (∀ z, round p ≠ JInt z) → (∀ b, round p ≠ JBool b) →
  submit_new_pulses cb tr = (Raise TypeError, tr ++ query_events nua lsr ++ evs).
Proof.
  intros Hq1 Hge Hq2 Hlatest Hp Hz Hb.
  eapply submit_new_pulses_gate_Raise; [done..|].
  destruct (round p) as [| b | z | | |]; try done; [by destruct (Hb b)|by destruct (Hz z)].
Qed.

(** C15 (below threshold): when the block number is below the stored
    [NextUnsignedAt], the cycle ends after that one query: it does not read
    [LastStoredRound], sends no request to the beacon, signs and submits
    nothing and prints nothing. *)
Theorem submit_new_pulses_below_threshold cb tr nua :
  env_query tr "Drand" "NextUnsignedAt" = Ok nua → cb < or_zero nua →
  submit_new_pulses cb tr
  = (Ok tt, tr ++ [EvQuery "Drand" "NextUnsignedAt" (Ok nua)]).
Proof.
  intros Hq Hlt. unfold submit_new_pulses.
  rewrite M_bind_unfold. cbn [substrate_query]. rewrite Hq.
  by rewrite (proj2 (Z.ltb_lt _ _) Hlt).
Qed.

(** C5 (one batch per cycle): a cycle signs and submits nothing, or it
    signs exactly one message and submits exactly one call, and then: the
    call carries between 1 and 50 pulses, each with 32 bytes of randomness;
    the signed message is the encoding by [encode_pulses_payload] of the
    block number, these pulses and the public key; and the call holds the
    same block number, pulses and public key and the signature of that
    message. *)
Theorem submit_new_pulses_batch cb tr :
  ∃ count, 1 ≤ count ≤ MAX_PULSES_TO_FETCH ∧
    batch_effects env_public_key cb count (events_of (submit_new_pulses cb) tr).
Proof.
  destruct (submit_new_pulses_run cb tr) as (evs & r & E & H).
  destruct (exec_events _ _ _ _ E) as [-> _]. by eapply cycle_run_effects.
Qed.

(** C24 (the empty batch is unreachable): no execution of a cycle prints
    "No new pulses to submit.": when the gate lets the fetch loop start, it
    asks for at least one round, and a loop that completes has a pulse for
    every round it asked for. *)
Theorem submit_new_pulses_never_empty cb tr :
  "No new pulses to submit." ∉ printed (events_of (submit_new_pulses cb) tr).
Proof.
  destruct (submit_new_pulses_run cb tr) as (evs & r & E & H).
  destruct (exec_events _ _ _ _ E) as [-> _]. by eapply cycle_run_printed.
Qed.

(** C16 (order of the requests): a cycle sends no request, or it asks for
    the latest pulse, going through the endpoints from the first one, and
    then possibly for the rounds [last + 1], [last + 2], ... of one batch of
    at most 50, in ascending order without a hole, each fetch again going
    through the endpoints from the first one. *)
Theorem submit_new_pulses_requests cb tr :
  let reqs := requested (events_of (submit_new_pulses cb) tr) in
  reqs = [] ∨
  ∃ k, (1 ≤ k ≤ 5)%nat ∧
    (reqs = fetch_uris latest_path k ∨
     ∃ last n ks, 1 ≤ n ≤ MAX_PULSES_TO_FETCH ∧
       (length ks ≤ Z.to_nat n)%nat ∧ Forall (λ k, 1 ≤ k ≤ 5)%nat ks ∧
       reqs = fetch_uris latest_path k
              ++ concat (zip_with (λ r, fetch_uris (round_path r))
                           (seqZ (last + 1) n) ks)).
Proof.
  destruct (submit_new_pulses_run cb tr) as (evs & r & E & H).
  destruct (exec_events _ _ _ _ E) as [-> _]. by eapply cycle_run_requested.
Qed.

(** C9 (all or nothing): [submit_pulses] for [n] rounds after [last]
    submits nothing, or one call with exactly [n] pulses whose signature is
    the signature of the encoded payload of these [n] pulses; a batch with
    fewer pulses than rounds asked for is never signed or submitted. *)
Theorem submit_pulses_all_or_nothing cb last n tr :
  batch_effects env_public_key cb n (events_of (submit_pulses cb last n) tr).
Proof.
  destruct (submit_pulses_run cb last n tr) as (evs & r & E & H).
  destruct (exec_events _ _ _ _ E) as [-> _]. by eapply submit_run_effects.
Qed.

(** C11 (abort): when the rounds before the [k]-th one are fetched and
    validated and the fetch or the validation of the [k]-th round raises,
    [submit_pulses] raises that exception and its history ends with the
    failed fetch: the rounds after it are not requested, and nothing is
    signed, submitted or printed. *)
Theorem submit_pulses_abort cb last n k tr ps tr1 tr2 e :
  0 ≤ k < n →
  fetch_pulses (seqZ (last + 1) k) tr = (Ok ps, tr1) →
  (resp ← fetch_drand_by_round (last + 1 + k); lift (try_into_pulse resp)) tr1
  = (Raise e, tr2) →
  submit_pulses cb last n tr = (Raise e, tr2) ∧
  submitted tr2 = submitted tr ∧ signatures tr2 = signatures tr ∧
  printed tr2 = printed tr.
Proof.
  intros Hk H1 Hr.
  assert (fetch_pulses (seqZ (last + 1) n) tr = (Raise e, tr2)) as Hf.
  { replace n with (k + (n - k)) by lia. rewrite seqZ_app by lia.
    rewrite (seqZ_cons _ (n - k)) by lia. by eapply fetch_pulses_abort. }
  split.
  { unfold submit_pulses. rewrite M_bind_unfold.
    replace (last + 1 + n - (last + 1)) with n by lia. by rewrite Hf. }
  destruct (fetch_pulses_run (seqZ (last + 1) n) tr) as (evs & r & E & H).
  rewrite Hf in E. injection E as <- ->. apply pulses_run_quiet in H.
  by rewrite submitted_quiet, signatures_quiet, printed_quiet.
Qed.

(** C25 (submission and report): when the fetch loop returns pulses and
    their payload has an encoding, [submit_pulses] signs the encoding,
    submits the call built from the block number, the pulses in hexadecimal,
    the public key and the signature, and prints the report of the receipt;
    a receipt that is not a success is reported with the message of the
    node and the function still returns normally. *)
Theorem submit_pulses_reported cb last n tr tr1 p ps enc receipt :
  fetch_pulses (seqZ (last + 1) n) tr = (Ok (p :: ps), tr1) →
  encode_pulses_payload (mkPayload cb (p :: ps) env_public_key) = Ok enc →
  let sig := env_sign tr1 enc in
  let call := call_of cb (p :: ps) env_public_key sig in
  env_submit (tr1 ++ [EvSign enc sig]) call = Ok receipt →
  submit_pulses cb last n tr
  = (Ok tt, tr1 ++ [EvSign enc sig; EvSubmit call (Ok receipt);
                    EvPrint (report last n receipt)]).
Proof. apply submit_pulses_exec. Qed.

End cycle_theorems.

(** ** Theorems: the call *)

Lemma of_hex0x_bytes_hex bs : of_hex0x ("0x" +:+ bytes_hex bs) = Ok bs.
Proof. apply unhexlify_bytes_hex. Qed.

Lemma pulse_of_call_for_call ps :
  mapM pulse_of_call (pulses_for_call_of ps) = Ok ps.
Proof.
  apply res_mapM_Ok_Forall2. unfold pulses_for_call_of.
  apply Forall2_fmap_l, Forall_Forall2_diag, Forall_forall. intros [r rnd sig] _.
  unfold pulse_of_call, compose. cbv beta. cbn [pc_randomness pc_signature
    pc_round round randomness signature]. by rewrite !of_hex0x_bytes_hex.
Qed.

(** C26 (the call carries what was signed): the call built at lines 138-165
    from a block number, pulses, a public key and a signature ([call_of],
    the call every cycle submits) is read back
    by the node as exactly that block number, these pulses in the same
    order with their rounds, randomness and signatures, that key and that
    signature: the hexadecimal text of the call loses nothing, so the node
    can encode the payload again and find the bytes that were signed. *)
Theorem call_of_payload cb ps pk sig :
  payload_of_call (call_of cb ps pk sig) = Ok (mkPayload cb ps pk, sig).
Proof.
  unfold payload_of_call, call_of. cbn [call_pulses call_public_sr25519
    call_signature_sr25519 call_block_number].
  by rewrite pulse_of_call_for_call, !of_hex0x_bytes_hex.
Qed.

(** ** Theorems: the driver *)

Section driver_theorems.
Context `{env : Env}.

Lemma subscribe_block_headers_main hs u :
  subscribe_block_headers block_subscription_handler hs u = main hs.
Proof.
  unfold main. generalize 0. revert u.
  induction hs as [|h hs IH]; intros u u'; [done|].
  cbn [subscribe_block_headers]. by rewrite (IH (u + 1) (u' + 1)).
Qed.

(** C17 (refinement of the driver): the program runs one cycle per block
    header, in the order of the headers, each cycle a run of the cycle
    specification for the number of its header, until the headers end or a
    cycle raises. *)
Theorem main_refines hs tr :
  (main hs tr).2 = tr ++ events_of (main hs) tr ∧
  driver_run env_public_key hs (events_of (main hs) tr) (main hs tr).1.
Proof.
  destruct (subscribe_block_headers_run hs 0 tr) as (evs & r & E & H).
  fold (main hs) in E. destruct (exec_events _ _ _ _ E) as [-> ->].
  by rewrite E.
Qed.

(** C34 (at most one submission per block): over any sequence of block
    headers the program submits at most as many calls as it received
    headers. *)
Theorem main_submissions hs tr :
  (length (submitted (events_of (main hs) tr)) ≤ length hs)%nat.
Proof.
  destruct (subscribe_block_headers_run hs 0 tr) as (evs & r & E & H).
  fold (main hs) in E. destruct (exec_events _ _ _ _ E) as [-> _].
  by eapply driver_run_submitted.
Qed.

(** The headers are handled one after the other, a cycle starting in the
    history the previous one left. *)
Lemma main_sequential hs1 hs2 tr :
  main (hs1 ++ hs2) tr
  = match main hs1 tr with
    | (Ok _, tr1) => main hs2 tr1
    | (Raise e, tr1) => (Raise e, tr1)
    end.
Proof.
  unfold main at 1. rewrite subscribe_block_headers_app.
  by rewrite !subscribe_block_headers_main.
Qed.

(** C18 (the first exception ends the program): when the cycles of the
    headers [hs1] return and the cycle of the next header [h] raises, the
    program ends with that exception in the history that cycle left: the
    handler catches nothing, so the headers after [h] are never handled and
    the failed cycle is not tried again. *)
Theorem main_first_exception hs1 h hs2 tr tr1 tr2 e :
  main hs1 tr = (Ok tt, tr1) →
  submit_new_pulses (number h) tr1 = (Raise e, tr2) →
  main (hs1 ++ h :: hs2) tr = (Raise e, tr2).
Proof.
  intros H1 H2. rewrite main_sequential, H1. unfold main.
  cbn [subscribe_block_headers]. rewrite M_bind_unfold.
  unfold block_subscription_handler at 1. by rewrite H2.
Qed.

End driver_theorems.

(** Witnesses of the theorems above, in the scripted environment. *)

Lemma submit_new_pulses_decision_witness :
  submit_new_pulses (env := chain_env (honest_beacon 12) (Some 0) (Some 9)) 7 []
  = submit_pulses (env := chain_env (honest_beacon 12) (Some 0) (Some 9)) 7 9 3
      (query_events (Some 0) (Some 9)
       ++ served 0 latest_path (beacon_response (beacon_pulse 12))).
Proof.
  apply (submit_new_pulses_decision
           (env := chain_env (honest_beacon 12) (Some 0) (Some 9)) 7 []
           (Some 0) (Some 9)
           (served 0 latest_path (beacon_response (beacon_pulse 12)))
           (beacon_response (beacon_pulse 12)) (beacon_pulse 12) 12);
    by vm_compute.
Defined.

Lemma submit_new_pulses_below_threshold_witness :
  submit_new_pulses (env := chain_env (honest_beacon 12) (Some 10) (Some 9)) 5 []
  = (Ok tt, [EvQuery "Drand" "NextUnsignedAt" (Ok (Some 10))]).
Proof.
  apply (submit_new_pulses_below_threshold
           (env := chain_env (honest_beacon 12) (Some 10) (Some 9)) 5 [] (Some 10));
    [reflexivity|by vm_compute].
Defined.

Lemma submit_pulses_abort_witness :
  submit_pulses (env := chain_env (faulty_beacon 12 11) None (Some 9)) 7 9 3 []
  = (Raise (PyException "Randomness is not 32 bytes"),
     served 0 (round_path 10) (beacon_response (beacon_pulse 10))
     ++ served 100 (round_path 11) (pulse_response (JInt 11) (replicate 31 x00) []))
  ∧ submitted
      (served 0 (round_path 10) (beacon_response (beacon_pulse 10))
       ++ served 100 (round_path 11) (pulse_response (JInt 11) (replicate 31 x00) []))
    = submitted []
  ∧ signatures
      (served 0 (round_path 10) (beacon_response (beacon_pulse 10))
       ++ served 100 (round_path 11) (pulse_response (JInt 11) (replicate 31 x00) []))
    = signatures []
  ∧ printed
      (served 0 (round_path 10) (beacon_response (beacon_pulse 10))
       ++ served 100 (round_path 11) (pulse_response (JInt 11) (replicate 31 x00) []))
    = printed [].
Proof.
  apply (submit_pulses_abort
           (env := chain_env (faulty_beacon 12 11) None (Some 9)) 7 9 3 1 []
           [beacon_pulse 10]
           (served 0 (round_path 10) (beacon_response (beacon_pulse 10))));
    [lia|by vm_compute..].
Defined.

Lemma submit_new_pulses_round_type_witness :
  submit_new_pulses
    (env := chain_env
       (beacon (pulse_response (JStr "12") (replicate 32 x00) [])
          (λ _, JNull) []) None (Some 9)) 7 []
  = (Raise TypeError,
     query_events None (Some 9)
     ++ served 0 latest_path (pulse_response (JStr "12") (replicate 32 x00) [])).
Proof.
  apply (submit_new_pulses_round_type
           (env := chain_env
              (beacon (pulse_response (JStr "12") (replicate 32 x00) [])
                 (λ _, JNull) []) None (Some 9)) 7 [] None (Some 9)
           (served 0 latest_path (pulse_response (JStr "12") (replicate 32 x00) []))
           (pulse_response (JStr "12") (replicate 32 x00) [])
           (mkPulse (JStr "12") (replicate 32 x00) []));
    try (by vm_compute); by intros ? [=].
Defined.

Lemma main_first_exception_witness :
  main (env := chain_env dead_beacon (Some 10) None)
    [mkHeader 5; mkHeader 10; mkHeader 11] []
  = (Raise no_valid_response,
     (submit_new_pulses (env := chain_env dead_beacon (Some 10) None) 10
        [EvQuery "Drand" "NextUnsignedAt" (Ok (Some 10))]).2).
Proof.
  apply (main_first_exception (env := chain_env dead_beacon (Some 10) None)
           [mkHeader 5] (mkHeader 10) [mkHeader 11] []
           [EvQuery "Drand" "NextUnsignedAt" (Ok (Some 10))]); by vm_compute.
Defined.

Lemma submit_pulses_reported_witness :
  ∃ tr1 enc,
    submit_pulses
      (env := rejecting_env (honest_beacon 12) None (Some 11) "Stale") 7 11 1 []
    = (Ok tt,
       tr1 ++ [EvSign enc enc;
               EvSubmit (call_of 7 [beacon_pulse 12] (replicate 32 x01) enc)
                 (Ok (mkReceipt false "Stale"));
               EvPrint "Failed to submit: Stale"]).
Proof.
  eexists _, _.
  apply (submit_pulses_reported
           (env := rejecting_env (honest_beacon 12) None (Some 11) "Stale")
           7 11 1 [] _ (beacon_pulse 12) []); by vm_compute.
Defined.
