(* ===== verification/Responsive.v ===== *)
(** What the cycle does when the collaborators answer: a beacon whose first
    endpoint serves the latest pulse and the rounds asked for, a chain that
    answers the two queries, a node that returns a receipt.

    The theorems of [Submit] say what a cycle may do in any environment; the
    theorem of this file says that in such an environment the cycle does
    submit, and what: the pulses the beacon returned for the rounds the gate
    decided on, in the order of the rounds, whatever round each of these
    pulses carries. *)

From Stdlib Require Import Strings.Byte.
From stdpp Require Import pretty gmap.
From S2P Require Import Prelude PyBytes Compact Pulse Payload World.
From S2P Require Import Fetcher Beacon Submit.

Section responsive.
Context `{env : Env}.

(** The first endpoint answers every request for [path] with the status 200
    and the body [body]. *)
Definition serves (path : string) (body : json) : Prop :=
  ∀ tr, env_http tr (first_endpoint path) HTTP_FETCH_TIMEOUT
        = HttpResponse 200 (Some body).

(** ** Lemmas *)

Lemma fetch_served path body tr :
  serves path body →
  ∃ evs, fetch_from_any_endpoint path tr = (Ok body, tr ++ evs) ∧
         quiet evs ∧ requested evs = [first_endpoint path].
Proof.
  intros H. eexists. split; [by apply fetch_from_any_endpoint_first|done].
Qed.

Lemma fetch_validate_served path body p tr :
  serves path body → try_into_pulse body = Ok p →
  ∃ evs, (resp ← fetch_from_any_endpoint path; lift (try_into_pulse resp)) tr
         = (Ok p, tr ++ evs) ∧
         quiet evs ∧ requested evs = [first_endpoint path].
Proof.
  intros Hs Hp. destruct (fetch_served path body tr Hs) as (evs & E & Hq).
  exists evs. by rewrite M_bind_unfold, E, <-Hp.
Qed.

Lemma fetch_pulses_served rs body_of p_of tr :
  (∀ r, r ∈ rs →
     serves (round_path r) (body_of r) ∧ try_into_pulse (body_of r) = Ok (p_of r)) →
  ∃ evs, fetch_pulses rs tr = (Ok (p_of <$> rs), tr ++ evs) ∧
         quiet evs ∧ requested evs = first_endpoint ∘ round_path <$> rs.
Proof.
  revert tr. induction rs as [|r rs IH]; intros tr H.
  { exists []. by rewrite app_nil_r. }
  destruct (H r) as [Hs Hp]; [by left|].
  destruct (fetch_validate_served _ _ _ tr Hs Hp) as (evs1 & E1 & Hq1 & Hr1).
  destruct (IH (tr ++ evs1)) as (evs2 & E2 & Hq2 & Hr2).
  { intros r' Hr'. apply H. by right. }
  exists (evs1 ++ evs2). unfold fetch_pulses in *. cbn [mapM_M].
  rewrite fetch_drand_by_round_eq, M_bind_unfold, E1.
  rewrite M_bind_unfold, E2, M_ret_unfold, app_assoc.
  split; [done|]. split; [auto with ocw|].
  by rewrite requested_app, Hr1, Hr2.
Qed.

(** ** Theorem *)

(** C10 (a responsive beacon and node): when the chain answers the two
    queries, the first endpoint serves a latest pulse whose round is the
    integer [c], the gate decides to fetch [count] rounds from [first], the
    first endpoint serves for each of these rounds a response that validates
    to a pulse, the payload of these pulses has an encoding and the node
    returns a receipt, then the cycle returns normally after one request per
    fetch, in the order latest, [first], [first + 1], ..., one signature
    over the encoding and one call that carries exactly these pulses in the
    order of the rounds, and it prints the report of the receipt.  Nothing
    is assumed on the round each pulse carries: the pulse returned for round
    [r] is submitted whether or not its round is [r]. *)
Theorem submit_new_pulses_served
    cb tr nua lsr latest p c first count body_of p_of enc receipt :
  (∀ tr, env_query tr "Drand" "NextUnsignedAt" = Ok nua) →
  (∀ tr, env_query tr "Drand" "LastStoredRound" = Ok lsr) →
  serves latest_path latest → try_into_pulse latest = Ok p →
  py_int (round p) = Ok c →
  gate cb (or_zero nua) (or_zero lsr) c = Fetch first count →
  (∀ r, first ≤ r < first + count →
     serves (round_path r) (body_of r) ∧ try_into_pulse (body_of r) = Ok (p_of r)) →
  encode_pulses_payload
    (mkPayload cb (p_of <$> seqZ first count) env_public_key) = Ok enc →
  (∀ tr call, env_submit tr call = Ok receipt) →
  ∃ evs sig,
    submit_new_pulses cb tr = (Ok tt, tr ++ evs) ∧
    requested evs
    = first_endpoint latest_path :: (first_endpoint ∘ round_path <$> seqZ first count) ∧
    signatures evs = [(enc, sig)] ∧
    submitted evs = [call_of cb (p_of <$> seqZ first count) env_public_key sig] ∧
    printed evs = [report (first - 1) count receipt].
Proof.
  intros Hq1 Hq2 Hl Hp Hc Hg Hr Henc Hs.
  destruct (fetch_served latest_path latest (tr ++ query_events nua lsr) Hl)
    as (evs0 & E0 & Hquiet0 & Hreq0).
  destruct (fetch_pulses_served (seqZ first count) body_of p_of
              (tr ++ query_events nua lsr ++ evs0)) as (evs1 & E1 & Hquiet1 & Hreq1).
  { intros r Hin%elem_of_seqZ. by apply Hr. }
  destruct (submit_pulses_served cb (first - 1) count (p_of <$> seqZ first count)
              (tr ++ query_events nua lsr ++ evs0)
              ((tr ++ query_events nua lsr ++ evs0) ++ evs1) enc receipt)
    as (sig & E2); [| |exact Henc|exact Hs|].
  { replace (first - 1 + 1) with first by lia. exact E1. }
  { apply gate_Fetch in Hg as (_ & Hcount & _).
    rewrite seqZ_cons by lia. done. }
  exists (query_events nua lsr ++ evs0 ++ evs1
          ++ [EvSign enc sig;
              EvSubmit (call_of cb (p_of <$> seqZ first count) env_public_key sig)
                (Ok receipt);
              EvPrint (report (first - 1) count receipt)]), sig.
  rewrite (submit_new_pulses_gate cb tr nua lsr evs0 latest p c), Hg, E2
    by (rewrite ?fetch_drand_latest_eq, ?E0, <-?app_assoc; done).
  rewrite <-!app_assoc. split; [done|].
  rewrite !signatures_quiet_l, !submitted_quiet_l, !printed_quiet_l
    by auto with ocw.
  rewrite !requested_app, Hreq0, Hreq1. cbn. by rewrite app_nil_r.
Qed.

End responsive.

(** The bytes signed in the example below: the encoding of block 7 with
    three copies of the pulse of round 12 and the key of the scripted
    chain. *)
Definition sample_batch_encoding : bytes :=
  Eval vm_compute in
    match encode_pulses_payload
            (mkPayload 7 (replicate 3 (beacon_pulse 12)) (replicate 32 x01)) with
    | Ok bs => bs
    | Raise _ => []
    end.

Lemma submit_new_pulses_served_witness :
  ∃ evs sig,
    submit_new_pulses (env := chain_env (stuck_beacon 12) (Some 0) (Some 9)) 7 []
    = (Ok tt, [] ++ evs) ∧
    requested evs
    = first_endpoint latest_path :: (first_endpoint ∘ round_path <$> seqZ 10 3) ∧
    signatures evs
    = [(sample_batch_encoding, sig)] ∧
    submitted evs
    = [call_of 7 ((λ _, beacon_pulse 12) <$> seqZ 10 3) (replicate 32 x01) sig] ∧
    printed evs = [report (10 - 1) 3 (mkReceipt true "")].
Proof.
  apply (submit_new_pulses_served
           (env := chain_env (stuck_beacon 12) (Some 0) (Some 9)) 7 []
           (Some 0) (Some 9) (beacon_response (beacon_pulse 12)) (beacon_pulse 12)
           12 10 3 (λ _, beacon_response (beacon_pulse 12)) (λ _, beacon_pulse 12)
           sample_batch_encoding (mkReceipt true "")); try done.
  intros r Hr. assert (r = 10 ∨ r = 11 ∨ r = 12) as [-> | [-> | ->]] by lia;
    (split; [intros ?|]; by vm_compute).
Defined.
