(* ===== verification/Scenario.v ===== *)
(** End-to-end runs of the program against the scripted beacon and chain of
    [Beacon]: the examples of section 8 of the specification, evaluated on
    the model of src/ocw.py, and runs that show what the code does where the
    specification is silent or says otherwise. *)

From Stdlib Require Import Strings.Byte.
From stdpp Require Import pretty gmap.
From S2P Require Import Prelude PyBytes Compact Pulse Payload World.
From S2P Require Import Fetcher Beacon Submit.

(** What one run of the program did: its result and the observations of its
    history. *)
Record outcome : Type := mkOutcome {
  result : res unit;
  requests : list string;
  signed : list (bytes * bytes);
  calls : list Call;
  lines : list string;
}.

Definition run_main (env : Env) (headers : list Header) : outcome :=
  let '(r, tr) := main (env := env) headers [] in
  mkOutcome r (requested tr) (signatures tr) (submitted tr) (printed tr).

(** The encoding of a payload known to have one. *)
Definition encoding (pp : PulsesPayload) : bytes :=
  match encode_pulses_payload pp with Ok bs => bs | Raise _ => [] end.

(** The public key of the scripted chain. *)
Definition scripted_key : bytes := replicate 32 x01.

(** The outcome of a cycle at block [cb] that submitted the pulses [ps]
    after asking for the latest pulse and for the rounds [rounds]. *)
Definition submitted_outcome (cb : Z) (rounds : list Z) (ps : list Pulse)
    (line : string) : outcome :=
  let enc := encoding (mkPayload cb ps scripted_key) in
  mkOutcome (Ok tt)
    (first_endpoint latest_path :: (first_endpoint ∘ round_path <$> rounds))
    [(enc, enc)] [call_of cb ps scripted_key enc] [line].

(** ** Examples *)

(** End to end: with [NextUnsignedAt] = 0, [LastStoredRound] = 9 and a
    beacon whose latest round is 12, the cycle of block 7 asks for the
    latest pulse and for rounds 10, 11 and 12 in that order, signs the
    encoding of the payload of these three pulses, which the chain's decoder
    reads back as that payload, submits exactly one call carrying the three
    pulses and that signature, and prints the success line. *)
Example scenario_end_to_end :
  let ps := beacon_pulse <$> [10; 11; 12] in
  run_main (chain_env (honest_beacon 12) (Some 0) (Some 9)) [mkHeader 7]
  = submitted_outcome 7 [10; 11; 12] ps
      "Successfully submitted pulses from round 10 up to 12" ∧
  decode_pulses_payload (encoding (mkPayload 7 ps scripted_key))
  = Some (mkPayload 7 ps scripted_key).
Proof. by vm_compute. Qed.

(** Cap: with [LastStoredRound] = 100 and the latest round 200 the
    cycle fetches the 50 rounds 101 to 150 in ascending order and submits
    them in one call. *)
Example scenario_cap :
  run_main (chain_env (honest_beacon 200) None (Some 100)) [mkHeader 1]
  = submitted_outcome 1 (seqZ 101 50) (beacon_pulse <$> seqZ 101 50)
      "Successfully submitted pulses from round 101 up to 150".
Proof. by vm_compute. Qed.

(** Bootstrap: with nothing stored and the latest round 42 the cycle
    fetches round 42 alone and submits it. *)
Example scenario_bootstrap :
  run_main (chain_env (honest_beacon 42) None None) [mkHeader 1]
  = submitted_outcome 1 [42] [beacon_pulse 42]
      "Successfully submitted pulses from round 42 up to 42".
Proof. by vm_compute. Qed.

(** No gap: with [LastStoredRound] = 100 and the latest round 100 the
    cycle asks for the latest pulse only, submits nothing and prints that
    there is nothing to fetch. *)
Example scenario_no_gap :
  run_main (chain_env (honest_beacon 100) None (Some 100)) [mkHeader 1]
  = mkOutcome (Ok tt) [first_endpoint latest_path] [] []
      ["No new rounds to fetch."].
Proof. by vm_compute. Qed.

(** Rounds are not checked: a beacon that answers the requests for
    rounds 10, 11 and 12 with the pulse of round 12 each time makes the
    cycle submit a call with three pulses of round 12 and print that rounds
    10 to 12 were submitted: the round of a fetched pulse is never compared
    with the round that was asked for. *)
Example scenario_rounds_unchecked :
  run_main (chain_env (stuck_beacon 12) None (Some 9)) [mkHeader 7]
  = submitted_outcome 7 [10; 11; 12] (replicate 3 (beacon_pulse 12))
      "Successfully submitted pulses from round 10 up to 12".
Proof. by vm_compute. Qed.

(** A failed cycle ends the program: with a beacon that is down, the
    cycle of the first header raises after one request to each of the five
    endpoints, and the second header is never handled: the run over two
    headers is the run over the first one. *)
Example scenario_beacon_down :
  run_main (chain_env dead_beacon None None) [mkHeader 1; mkHeader 2]
  = mkOutcome (Raise no_valid_response)
      (endpoint_uris DRAND_ENDPOINTS latest_path) [] [] [] ∧
  main (env := chain_env dead_beacon None None) [mkHeader 1; mkHeader 2] []
  = main (env := chain_env dead_beacon None None) [mkHeader 1] [].
Proof. by vm_compute. Qed.

(** A round that is not a number: a latest pulse whose round is the
    string "12" passes validation and makes the gate raise [TypeError]. *)
Example scenario_round_string :
  let latest := pulse_response (JStr "12") (replicate 32 x00) [] in
  try_into_pulse latest = Ok (mkPulse (JStr "12") (replicate 32 x00) []) ∧
  run_main (chain_env (beacon latest (λ _, latest) []) None (Some 9)) [mkHeader 1]
  = mkOutcome (Raise TypeError) [first_endpoint latest_path] [] [] [].
Proof. by vm_compute. Qed.
