(* ===== verification/Relational.v ===== *)
(** Independence of the cycles: the behaviour of [submit_new_pulses] and of
    the driver is a function of the answers of the collaborators and of
    nothing else, and it does not depend on the absolute time.

    The program keeps no state between two cycles (sections 4.5 and 4.7 of
    the specification): whatever it knows it reads again from the chain and
    the beacon; and it uses the clock only to measure the time since the
    start of a fetch.  In the model this is a relational property of the
    monad [M]: two executions, in two environments and after two histories,
    such that from there on the oracles give the same answers and the second
    clock is [δ] ahead of the first, perform the same events, the clock
    readings [δ] apart, and end with the same result.  [related] is the
    logical relation of that statement: [mret], [lift], [mbind] and [mapM_M]
    are proper for it, every primitive respects it and so does every
    function of the program, by composition.  With [δ = 0] the two
    executions are equal. *)

From stdpp Require Import pretty gmap.
From S2P Require Import Prelude PyBytes Compact Pulse Payload World.
From S2P Require Import Fetcher Beacon Submit.

(** ** Histories shifted in time *)

Definition shift_event (δ : Z) (ev : event) : event :=
  match ev with
  | EvTime t => EvTime (t + δ)
  | _ => ev
  end.

Definition shift (δ : Z) (evs : trace) : trace := shift_event δ <$> evs.

Lemma shift_app δ evs1 evs2 : shift δ (evs1 ++ evs2) = shift δ evs1 ++ shift δ evs2.
Proof. apply fmap_app. Qed.

Lemma shift_0 evs : shift 0 evs = evs.
Proof.
  unfold shift. rewrite <-(list_fmap_id evs) at 2. apply list_fmap_ext.
  intros _ [] _; cbn; by rewrite ?Z.add_0_r.
Qed.

Lemma requested_shift δ evs : requested (shift δ evs) = requested evs.
Proof.
  unfold shift, requested.
  induction evs as [|[] evs IH]; cbn; by rewrite ?IH.
Qed.

Lemma ltb_shift d t δ : (d + δ <? t + δ) = (d <? t).
Proof. case_zbool; lia. Qed.

(** The results of two related computations: equal exceptions, or values
    related by [R]. *)
Definition res_rel {A} (R : A → A → Prop) (r1 r2 : res A) : Prop :=
  match r1, r2 with
  | Ok a1, Ok a2 => R a1 a2
  | Raise e1, Raise e2 => e1 = e2
  | _, _ => False
  end.

Lemma res_rel_eq {A} (r1 r2 : res A) : res_rel eq r1 r2 → r1 = r2.
Proof. destruct r1, r2; cbn; by intros; subst. Qed.

(** ** Environments that answer alike *)

Section agree.
Context (env1 env2 : Env).

(** The oracles of the two environments answer alike after [tr1] and [tr2]
    extended by the same events. *)
Definition agree (tr1 tr2 : trace) : Prop :=
  ∀ evs,
    @env_time env1 (tr1 ++ evs) = @env_time env2 (tr2 ++ evs) ∧
    @env_http env1 (tr1 ++ evs) = @env_http env2 (tr2 ++ evs) ∧
    @env_query env1 (tr1 ++ evs) = @env_query env2 (tr2 ++ evs) ∧
    @env_sign env1 (tr1 ++ evs) = @env_sign env2 (tr2 ++ evs) ∧
    @env_submit env1 (tr1 ++ evs) = @env_submit env2 (tr2 ++ evs).

(** The same with the second clock [δ] ahead of the first: the oracles of
    the second environment see the clock readings of the first shifted by
    [δ]. *)
Definition agree_shift (δ : Z) (tr1 tr2 : trace) : Prop :=
  ∀ evs,
    @env_time env1 (tr1 ++ evs) + δ = @env_time env2 (tr2 ++ shift δ evs) ∧
    @env_http env1 (tr1 ++ evs) = @env_http env2 (tr2 ++ shift δ evs) ∧
    @env_query env1 (tr1 ++ evs) = @env_query env2 (tr2 ++ shift δ evs) ∧
    @env_sign env1 (tr1 ++ evs) = @env_sign env2 (tr2 ++ shift δ evs) ∧
    @env_submit env1 (tr1 ++ evs) = @env_submit env2 (tr2 ++ shift δ evs).

Lemma agree_shift_0 tr1 tr2 : agree tr1 tr2 → agree_shift 0 tr1 tr2.
Proof. intros H evs. rewrite shift_0, Z.add_0_r. apply H. Qed.

Lemma agree_shift_app δ tr1 tr2 evs :
  agree_shift δ tr1 tr2 → agree_shift δ (tr1 ++ evs) (tr2 ++ shift δ evs).
Proof. intros H evs'. rewrite <-!app_assoc, <-shift_app. apply H. Qed.

Lemma agree_shift_here δ tr1 tr2 :
  agree_shift δ tr1 tr2 →
  @env_time env1 tr1 + δ = @env_time env2 tr2 ∧
  @env_http env1 tr1 = @env_http env2 tr2 ∧
  @env_query env1 tr1 = @env_query env2 tr2 ∧
  @env_sign env1 tr1 = @env_sign env2 tr2 ∧
  @env_submit env1 tr1 = @env_submit env2 tr2.
Proof. intros H. specialize (H []). by rewrite !app_nil_r in H. Qed.

End agree.

(** ** The logical relation *)

Section relational.
Context (env1 env2 : Env) (δ : Z).

(** Two computations that, started where the oracles agree, perform the
    same events [δ] apart and return related results. *)
Definition related {A} (R : A → A → Prop) (m1 m2 : M A) : Prop :=
  ∀ tr1 tr2, agree_shift env1 env2 δ tr1 tr2 →
    ∃ r1 r2 evs,
      m1 tr1 = (r1, tr1 ++ evs) ∧ m2 tr2 = (r2, tr2 ++ shift δ evs) ∧
      res_rel R r1 r2.

(** Clock readings [δ] apart. *)
Definition later (t1 t2 : Z) : Prop := t2 = t1 + δ.

(** *** The monad operations are proper *)

Lemma related_ret {A} (R : A → A → Prop) a1 a2 :
  R a1 a2 → related R (mret a1) (mret a2).
Proof. intros H tr1 tr2 _. exists (Ok a1), (Ok a2), []. by rewrite !app_nil_r. Qed.

Lemma related_lift {A} (r : res A) : related eq (lift r) (lift r).
Proof.
  intros tr1 tr2 _. exists r, r, []. rewrite !app_nil_r.
  by destruct r.
Qed.

Lemma related_emit ev :
  shift_event δ ev = ev → related eq (emit ev) (emit ev).
Proof. intros H tr1 tr2 _. exists (Ok tt), (Ok tt), [ev]. cbn. by rewrite H. Qed.

Lemma related_bind {A B} (R : A → A → Prop) (S : B → B → Prop)
    (m1 m2 : M A) (f1 f2 : A → M B) :
  related R m1 m2 → (∀ a1 a2, R a1 a2 → related S (f1 a1) (f2 a2)) →
  related S (m1 ≫= f1) (m2 ≫= f2).
Proof.
  intros Hm Hf tr1 tr2 Ha. rewrite !M_bind_unfold.
  destruct (Hm tr1 tr2 Ha) as ([a1|e1] & [a2|e2] & evs & -> & -> & HR);
    try done; [|by eexists (Raise _), (Raise _), _].
  destruct (Hf a1 a2 HR _ _ (agree_shift_app _ _ _ _ _ evs Ha))
    as (r1 & r2 & evs' & -> & -> & HS).
  exists r1, r2, (evs ++ evs'). by rewrite shift_app, !app_assoc.
Qed.

#[export] Instance mbind_related {A B} (R : A → A → Prop) (S : B → B → Prop) :
  Proper ((R ==> related S) ==> related R ==> related S)
    (mbind (M := M) (A := A) (B := B)).
Proof. intros f1 f2 Hf m1 m2 Hm. by eapply related_bind. Qed.

Lemma related_mapM_M {A B} (f1 f2 : A → M B) l :
  (∀ a, related eq (f1 a) (f2 a)) → related eq (mapM_M f1 l) (mapM_M f2 l).
Proof.
  intros Hf. induction l as [|x l IH]; [by apply related_ret|].
  cbn [mapM_M]. eapply related_bind; [done|]. intros y ? <-.
  eapply related_bind; [done|]. intros ys ? <-. by apply related_ret.
Qed.

(** *** The primitives respect the relation *)

Lemma related_time_time :
  related later (time_time (env := env1)) (time_time (env := env2)).
Proof.
  intros tr1 tr2 (Ht & _)%agree_shift_here. unfold time_time. rewrite <-Ht.
  by eexists (Ok _), (Ok _), [_].
Qed.

Lemma related_requests_get uri t :
  related eq (requests_get (env := env1) uri t) (requests_get (env := env2) uri t).
Proof.
  intros tr1 tr2 (_ & Hh & _)%agree_shift_here. unfold requests_get.
  rewrite Hh. by eexists (Ok _), (Ok _), [_].
Qed.

Lemma related_substrate_query m s :
  related eq (substrate_query (env := env1) m s)
    (substrate_query (env := env2) m s).
Proof.
  intros tr1 tr2 (_ & _ & Hq & _)%agree_shift_here. unfold substrate_query.
  rewrite Hq. eexists _, _, [_]. split; [done|]. split; [done|].
  by destruct (env_query _ _ _).
Qed.

Lemma related_keypair_sign msg :
  related eq (keypair_sign (env := env1) msg) (keypair_sign (env := env2) msg).
Proof.
  intros tr1 tr2 (_ & _ & _ & Hs & _)%agree_shift_here. unfold keypair_sign.
  rewrite Hs. by eexists (Ok _), (Ok _), [_].
Qed.

Lemma related_substrate_submit c :
  related eq (substrate_submit (env := env1) c)
    (substrate_submit (env := env2) c).
Proof.
  intros tr1 tr2 (_ & _ & _ & _ & Hs)%agree_shift_here.
  unfold substrate_submit. rewrite Hs. eexists _, _, [_].
  split; [done|]. split; [done|]. by destruct (env_submit _ _).
Qed.

End relational.

#[export] Hint Resolve related_lift related_requests_get
  related_substrate_query related_keypair_sign related_substrate_submit : ocw.

(** Decompose a goal [related env1 env2 δ R m1 m2] along the binds and the
    tests of the two computations. *)
Ltac related_step :=
  match goal with
  | |- related _ _ _ _ (mbind _ time_time) (mbind _ time_time) =>
      eapply related_bind; [apply related_time_time|intros ? ? ->]
  | |- related _ _ _ _ (mbind _ _) (mbind _ _) =>
      eapply (related_bind _ _ _ eq); [|intros ? ? <-]
  | |- related _ _ _ _ (mret _) (mret _) => by apply related_ret
  | |- related _ _ _ _ (if ?b then _ else _) (if ?b then _ else _) => destruct b
  | |- related _ _ _ _ (match ?x with Some _ => _ | None => _ end) _ => destruct x
  | |- related _ _ _ _ (match ?x with [] => _ | _ :: _ => _ end) _ => destruct x
  | |- related _ _ _ _ (print _) (print _) => by apply related_emit
  | |- _ => solve [auto with ocw]
  end.

(** ** The program respects the relation *)

Section program.
Context (env1 env2 : Env) (δ : Z).
Hypothesis Hpk : @env_public_key env1 = @env_public_key env2.

Abbreviation rel := (related env1 env2 δ eq).

(** The deadline of the second loop is [δ] after the deadline of the
    first. *)
Lemma related_fetch_loop eps path d :
  rel (fetch_loop (env := env1) eps path d)
      (fetch_loop (env := env2) eps path (d + δ)).
Proof.
  induction eps as [|e eps IH]; cbn [fetch_loop]; repeat related_step.
  rewrite ltb_shift. repeat related_step.
Qed.

Lemma related_fetch_from_any_endpoint path :
  rel (fetch_from_any_endpoint (env := env1) path)
      (fetch_from_any_endpoint (env := env2) path).
Proof.
  unfold fetch_from_any_endpoint. related_step.
  rewrite (Z.add_shuffle0 _ δ). apply related_fetch_loop.
Qed.

Lemma related_fetch_pulses rounds :
  rel (fetch_pulses (env := env1) rounds) (fetch_pulses (env := env2) rounds).
Proof.
  apply related_mapM_M. intros r. related_step; [|related_step].
  apply related_fetch_from_any_endpoint.
Qed.

Lemma related_submit_pulses cb last n :
  rel (submit_pulses (env := env1) cb last n)
      (submit_pulses (env := env2) cb last n).
Proof.
  unfold submit_pulses, keypair_public_key. rewrite Hpk.
  related_step; [apply related_fetch_pulses|]. repeat related_step.
Qed.

Lemma related_submit_new_pulses cb :
  rel (submit_new_pulses (env := env1) cb) (submit_new_pulses (env := env2) cb).
Proof.
  unfold submit_new_pulses. repeat related_step;
    [apply related_fetch_from_any_endpoint|apply related_submit_pulses].
Qed.

Lemma related_main hs :
  rel (main (env := env1) hs) (main (env := env2) hs).
Proof.
  unfold main. generalize 0. induction hs as [|h hs IH]; intros u;
    cbn [subscribe_block_headers]; repeat related_step.
  apply related_submit_new_pulses.
Qed.

(** Two related executions of the program, as equations. *)
Lemma related_main_exec hs tr1 tr2 :
  agree_shift env1 env2 δ tr1 tr2 →
  (main (env := env1) hs tr1).1 = (main (env := env2) hs tr2).1 ∧
  events_of (main (env := env2) hs) tr2
  = shift δ (events_of (main (env := env1) hs) tr1).
Proof.
  intros Ha. destruct (related_main hs tr1 tr2 Ha)
    as (r1 & r2 & evs & E1 & E2 & ->%res_rel_eq).
  destruct (exec_events _ _ _ _ E1) as [-> ->].
  by destruct (exec_events _ _ _ _ E2) as [-> ->].
Qed.

End program.

(** ** Theorems *)

(** C19 (cycles are determined by the answers): two runs of the program over
    the same block headers, in two environments with the same public key and
    after two histories from which the clock, the beacon, the node and the
    key pair answer alike, end with the same result and perform the same
    events: nothing of an earlier cycle is remembered by the program. *)
Theorem main_determined (env1 env2 : Env) hs tr1 tr2 :
  @env_public_key env1 = @env_public_key env2 → agree env1 env2 tr1 tr2 →
  (main (env := env1) hs tr1).1 = (main (env := env2) hs tr2).1 ∧
  events_of (main (env := env1) hs) tr1 = events_of (main (env := env2) hs) tr2.
Proof.
  intros Hpk Ha%agree_shift_0.
  destruct (related_main_exec env1 env2 0 Hpk hs tr1 tr2 Ha) as [-> ->].
  by rewrite shift_0.
Qed.

(** C20 (time shift): the program uses the clock only relatively.  Two runs
    over the same block headers, where the collaborators answer alike and
    the clock of the second run is [δ] ahead of the clock of the first, end
    with the same result and perform the same events, every clock reading
    of the second being the reading of the first plus [δ]: a deadline is
    hit in one run exactly when it is hit in the other. *)
Theorem main_time_shift (env1 env2 : Env) δ hs tr1 tr2 :
  @env_public_key env1 = @env_public_key env2 →
  agree_shift env1 env2 δ tr1 tr2 →
  (main (env := env1) hs tr1).1 = (main (env := env2) hs tr2).1 ∧
  events_of (main (env := env2) hs) tr2
  = shift δ (events_of (main (env := env1) hs) tr1).
Proof. intros Hpk Ha. by apply related_main_exec. Qed.

Lemma main_determined_witness :
  (main (env := chain_env (honest_beacon 12) (Some 0) (Some 9)) [mkHeader 7] []).1
  = (main (env := chain_env (honest_beacon 12) (Some 0) (Some 9)) [mkHeader 7]
       [EvPrint "an earlier cycle"]).1 ∧
  events_of (main (env := chain_env (honest_beacon 12) (Some 0) (Some 9)) [mkHeader 7]) []
  = events_of (main (env := chain_env (honest_beacon 12) (Some 0) (Some 9)) [mkHeader 7])
      [EvPrint "an earlier cycle"].
Proof. apply main_determined; [reflexivity|]. intros evs. by repeat split. Defined.

(** The clock of the scripted chain advances with every request: after an
    earlier request that failed it is 100 ms ahead. *)
Lemma main_time_shift_witness :
  (main (env := chain_env dead_beacon None None) [mkHeader 7] []).1
  = (main (env := chain_env dead_beacon None None) [mkHeader 7]
       [EvHttpGet "an earlier request" 0 HttpError]).1 ∧
  events_of (main (env := chain_env dead_beacon None None) [mkHeader 7])
    [EvHttpGet "an earlier request" 0 HttpError]
  = shift 100
      (events_of (main (env := chain_env dead_beacon None None) [mkHeader 7]) []).
Proof.
  apply main_time_shift; [reflexivity|]. intros evs.
  split; [|by repeat split]. cbn. rewrite requested_shift.
  fold (requested evs). lia.
Defined.
